(** * Rollout inference of the sintering-physics example

    A shallow embedding of
    [examples/additive_manufacturing/sintering_physics/inference.py]:
    the autoregressive rollout loop of [Inference], its global-context
    windowing, the sliding position window and the record written per
    example.

    Python effects are kept explicit.  A computation of the engine runs in
    a [World] holding the tensor objects that carry position windows (so
    that aliasing between [initial_positions] and [current_positions] is
    visible), the output directory tree, and the trace of calls made to the
    learned simulator; it ends by returning a value or by raising. *)

From Stdlib Require Import ZArith List Lia Ascii.
From stdpp Require Import base option list functions gmap strings pretty.

Local Open Scope Z_scope.

(** ** Module-level constants (lines 87-93) *)

Definition INPUT_SEQUENCE_LENGTH : nat := 5.
Definition PREDICT_LENGTH : nat := 1.
Definition NUM_PARTICLE_TYPES : nat := 3.
Definition KINEMATIC_PARTICLE_ID : Z := 0.
Definition METAL_PARTICLE_ID : Z := 2.
Definition ANCHOR_PLANE_PARTICLE_ID : Z := 1.

(** ** Exceptions and outcomes *)

Inductive Exn : Type :=
  | AttributeError   (* attribute access on [None] *)
  | IndexError       (* index out of bounds *)
  | RuntimeError     (* raised by torch on a shape error *)
  | FileNotFoundError (* [os.makedirs] on the empty path *)
  | SimulatorError (code : nat). (* anything raised inside [model.inference] *)

Inductive Outcome (A : Type) : Type :=
  | Returned (x : A)
  | Raised (e : Exn).
Arguments Returned {A} x.
Arguments Raised {A} e.

Definition outcome_bind {A B} (o : Outcome A) (k : A → Outcome B) : Outcome B :=
  match o with
  | Returned x => k x
  | Raised e => Raised e
  end.

(** ** The settings read from [constants.Constants] *)

Record Constants := {
  eval_split : string;
  output_path : string;
}.

(** ** Python slicing and [range] *)

(** The stop index of [t[:n]] on a sequence of [len] entries; a negative
    [n] counts from the end. *)
Definition slice_stop (n : Z) (len : nat) : nat :=
  if n <? 0 then Z.to_nat (Z.of_nat len + n) else Z.to_nat n.

(** [range(n)]: empty when [n <= 0]. *)
Definition range (n : Z) : list nat := seq 0 (Z.to_nat n).

(** [os.path.join(a, b)] for a relative [b]. *)
Definition ends_with_slash (a : string) : bool :=
  match String.rev a with
  | String c _ => bool_decide (c = "/"%char)
  | EmptyString => false
  end.

Definition os_path_join (a b : string) : string :=
  match b with
  | String "/" _ => b
  | _ => if bool_decide (a = "") || ends_with_slash a then a +:+ b
         else a +:+ "/" +:+ b
  end.

(** The f-string [f"rollout_{C.eval_split}_{example_index}.json"]. *)
Definition rollout_filename (C : Constants) (example_index : nat) : string :=
  os_path_join (output_path C)
    ("rollout_" +:+ eval_split C +:+ "_" +:+ pretty example_index +:+ ".json").

(** The directories on the way to [p]: what precedes each separator that
    follows a name, as ["x"] and ["x/y"] for ["x/y/z"].  [os.makedirs(p)]
    creates those that are missing before it creates [p].  [prefix] is
    what has been read, [last_sep] whether it is empty or ends with a
    separator. *)
Fixpoint parents_from (prefix : string) (last_sep : bool) (rest : string)
  : list string :=
  match rest with
  | EmptyString => []
  | String c rest' =>
      let sep := bool_decide (c = "/"%char) in
      (if sep && negb last_sep then [prefix] else [])
      ++ parents_from (prefix +:+ String c EmptyString) sep rest'
  end.

Definition parent_directories (p : string) : list string :=
  parents_from "" true p.

Section Tensors.
Context {A : Type}.

(** *** Two-dimensional tensors (the global context, shape [L, C]) *)

Record Tensor2 := { ncols : nat; rows : list (list A) }.

(** [t.shape[0]] *)
Definition shape0 (t : Tensor2) : Z := Z.of_nat (length (rows t)).

(** [t[:n]] *)
Definition slice_rows (n : Z) (t : Tensor2) : Tensor2 :=
  {| ncols := ncols t; rows := take (slice_stop n (length (rows t))) (rows t) |}.

(** [torch.zeros([n, c])]; a negative dimension raises. *)
Definition torch_zeros (zero : A) (n : Z) (c : nat) : Outcome Tensor2 :=
  if n <? 0 then Raised RuntimeError
  else Returned {| ncols := c; rows := replicate (Z.to_nat n) (replicate c zero) |}.

(** [torch.cat([a, b], 0)]: sizes must agree outside dimension 0. *)
Definition torch_cat0 (a b : Tensor2) : Outcome Tensor2 :=
  if (ncols a =? ncols b)%nat
  then Returned {| ncols := ncols a; rows := rows a ++ rows b |}
  else Raised RuntimeError.

(** [torch.reshape(t, [1, -1])] *)
Definition reshape_row (t : Tensor2) : Tensor2 :=
  {| ncols := length (concat (rows t)); rows := [concat (rows t)] |}.

(** A sequence of scalars as a tensor of shape [L, 1], and a single row
    as a tensor of shape [1, n]. *)
Definition column (xs : list A) : Tensor2 :=
  {| ncols := 1; rows := map (λ x, [x]) xs |}.
Definition row (xs : list A) : Tensor2 :=
  {| ncols := length xs; rows := [xs] |}.

(** *** Position tensors

    A tensor of shape [N, T, D] is kept particle-major, as the source
    indexes it: one list of [T] snapshots per particle.  [A] is then the
    position (a [D]-vector) of one particle at one time. *)

(** [p[:, :n]] *)
Definition slice_time (n : nat) (p : list (list A)) : list (list A) :=
  map (take n) p.

(** [p[:, 1:]] *)
Definition drop_oldest (p : list (list A)) : list (list A) :=
  map (drop 1) p.

(** [x.unsqueeze(1)] on shape [N, D] *)
Definition unsqueeze1 (x : list A) : list (list A) := map (λ q, [q]) x.

(** [torch.cat([a, b], axis=1)]: the particle counts must agree. *)
Definition torch_cat1 (a b : list (list A)) : Outcome (list (list A)) :=
  if (length a =? length b)%nat
  then Returned (zip_with app a b)
  else Raised RuntimeError.

(** [y[:, 0].squeeze(1)] on the simulator's output, one list of
    [predict_length] predicted positions per particle: the first is taken
    for each particle, and an empty list has no index 0. *)
Fixpoint select_first (y : list (list A)) : Outcome (list A) :=
  match y with
  | [] => Returned []
  | r :: y' =>
      match r with
      | [] => Raised IndexError
      | q :: _ => outcome_bind (select_first y') (λ qs, Returned (q :: qs))
      end
  end.

(** [torch.stack(ts)] on a Python list of [N, D] tensors. *)
Definition torch_stack (ts : list (list A)) : Outcome (list (list A)) :=
  match ts with
  | [] => Raised RuntimeError
  | t :: ts' =>
      if forallb (λ u, (length u =? length t)%nat) ts'
      then Returned ts
      else Raised RuntimeError
  end.
End Tensors.
Arguments Tensor2 A : clear implicits.

(** ** The engine *)

Section Engine.
(** [Scalar] is the element type of the global context, [Pos] the
    position of one particle at one time, [Metadata] the dictionary read
    by [_read_metadata], [Params] the state of the [LearnedSimulator]
    object and [Targets] the second component the dataset yields. *)
Context {Scalar Pos Metadata Params Targets : Type}.

(** The fill value of [torch.zeros]. *)
Variable zero : Scalar.

(** [INPUT_SEQUENCE_LENGTH].  The source fixes it at 5 and names 10 as
    the other option; the engine is written over any value. *)
Variable W : nat.

Variable C : Constants.
Variable metadata : Metadata.

(** [features], the first component the dataset yields (a dictionary
    with exactly these keys in use). *)
Record Features := {
  position : list (list Pos);
  n_particles_per_example : list Z;
  n_edges_per_example : list Z;
  senders : list Z;
  receivers : list Z;
  particle_type : list Z;
  step_context : option (Tensor2 Scalar);
}.

(** The keyword arguments of one [model.inference] call. *)
Record InferenceArgs := {
  arg_position_sequence : list (list Pos);
  arg_n_particles_per_example : list Z;
  arg_n_edges_per_example : list Z;
  arg_senders : list Z;
  arg_receivers : list Z;
  arg_predict_length : nat;
  arg_particle_types : list Z;
  arg_global_context : option (Tensor2 Scalar);
}.

(** The collaborators living outside this file: the simulator's forward
    pass, the checkpoint load of lines 183-194, and
    [utils.get_kinematic_mask]. *)
Variable inference : Params → InferenceArgs → Outcome (list (list Pos)).
Variable load_state_dict : Params → Outcome Params.
Variable get_kinematic_mask : list Z → list bool.

(** The values stored in [rollout_op]. *)
Inductive Value : Type :=
  | VPositions (v : list (list Pos))
  | VInts (v : list Z)
  | VScalars (v : list (list Scalar))
  | VMetadata (m : Metadata).

(** *** Worlds

    [heap] holds the tensor objects bound to [initial_positions] and
    [current_positions], addressed by identity; [dirs] and [files] are
    the directories and files that exist, a file being kept as the
    dictionary handed to [json.dump]; [calls] is the trace of
    [model.inference] calls, oldest first. *)
Record World := {
  heap : list (list (list Pos));
  dirs : gset string;
  files : gmap string (gmap string Value);
  calls : list InferenceArgs;
}.

Definition Py (A : Type) : Type := World → World * Outcome A.

#[local] Instance Py_ret : MRet Py := λ A x w, (w, Returned x).
#[local] Instance Py_bind : MBind Py := λ A B k m w,
  match m w with
  | (w', Returned x) => k x w'
  | (w', Raised e) => (w', Raised e)
  end.

Definition lift {A} (o : Outcome A) : Py A := λ w, (w, o).

(** A new tensor object. *)
Definition alloc (t : list (list Pos)) : Py nat := λ w,
  ({| heap := heap w ++ [t]; dirs := dirs w; files := files w; calls := calls w |},
   Returned (length (heap w))).

(** Reading a tensor object. *)
Definition deref (l : nat) : Py (list (list Pos)) := λ w,
  (w, Returned (heap w !!! l)).

(** [x.to(device)], [x.shape[0]] and [x.cpu().numpy().tolist()] on a
    value that may be [None]. *)
Definition to_device {A} (x : option A) : Py (option A) :=
  match x with
  | Some t => mret (Some t)
  | None => lift (Raised AttributeError)
  end.

Definition shape0_of (x : option (Tensor2 Scalar)) : Py Z :=
  match x with
  | Some t => mret (shape0 t)
  | None => lift (Raised AttributeError)
  end.

Definition tolist (x : option (Tensor2 Scalar)) : Py (list (list Scalar)) :=
  match x with
  | Some t => mret (rows t)
  | None => lift (Raised AttributeError)
  end.

(** [model.inference(...)]: the call is recorded, then returns or raises
    as the simulator does. *)
Definition model_inference (model : Params) (args : InferenceArgs)
  : Py (list (list Pos)) := λ w,
  ({| heap := heap w; dirs := dirs w; files := files w;
      calls := calls w ++ [args] |},
   inference model args).

(** [os.path.exists], [os.makedirs], and [open(f, "w")] followed by
    [json.dump]: writing replaces what the name held.  A directory is
    known by the path that names it, taken as written.  The empty path
    names nothing: it never exists, and [os.makedirs] raises on it;
    elsewhere [os.makedirs] creates the directory together with the
    directories on the way to it.  Failures that depend on the state of
    the machine (permissions, a full disk, a regular file where a
    directory is needed) are left out. *)
Definition os_path_exists (p : string) : Py bool := λ w,
  (w, Returned (bool_decide (p ≠ "" ∧ (p ∈ dirs w ∨ p ∈ dom (files w))))).

Definition os_makedirs (p : string) : Py unit := λ w,
  if bool_decide (p = "") then (w, Raised FileNotFoundError)
  else
    ({| heap := heap w;
        dirs := {[p]} ∪ list_to_set (parent_directories p) ∪ dirs w;
        files := files w; calls := calls w |}, Returned tt).

Definition json_dump (filename : string) (d : gmap string Value) : Py unit :=
  λ w,
  ({| heap := heap w; dirs := dirs w; files := <[filename := d]> (files w);
      calls := calls w |}, Returned tt).

(** A [for] loop threading the variables it rebinds. *)
Fixpoint for_each {X S} (xs : list X) (body : S → X → Py S) (s : S) : Py S :=
  match xs with
  | [] => mret s
  | x :: xs' => s' ← body s x; for_each xs' body s'
  end.

(** *** Lines 220-233: the context handed to the simulator at [step] *)
Definition context_step (global_context : option (Tensor2 Scalar))
    (step : nat) : Py (option (Tensor2 Scalar)) :=
  match global_context with
  | None => mret None
  | Some gc =>
      let read_step_context :=
        slice_rows (Z.of_nat step + Z.of_nat W) gc in
      zero_pad ← lift (torch_zeros zero
                         (shape0 gc - shape0 read_step_context - 1) 1);
      global_context_step ← lift (torch_cat0 read_step_context zero_pad);
      mret (Some (reshape_row global_context_step))
  end.

(** The variables the rollout loop rebinds.  [current_positions] names a
    tensor object; [kinematic_mask] is unbound before the first step. *)
Record LoopState := {
  current_positions : nat;
  updated_predictions : list (list Pos);
  kinematic_mask : option (list bool);
}.

(** *** Lines 221-271: one step of the rollout loop *)
Definition rollout_step (model : Params) (features : Features)
    (global_context : option (Tensor2 Scalar))
    (st : LoopState) (step : nat) : Py LoopState :=
  global_context_step ← context_step global_context step;
  position_sequence ← deref (current_positions st);
  global_context_arg ← to_device global_context_step;
  predict_positions ← model_inference model
    {| arg_position_sequence := position_sequence;
       arg_n_particles_per_example := n_particles_per_example features;
       arg_n_edges_per_example := n_edges_per_example features;
       arg_senders := senders features;
       arg_receivers := receivers features;
       arg_predict_length := PREDICT_LENGTH;
       arg_particle_types := particle_type features;
       arg_global_context := global_context_arg |};
  let mask := get_kinematic_mask (particle_type features) in
  predict_positions ← lift (select_first predict_positions);
  let next_position := predict_positions in
  let predictions := updated_predictions st ++ [next_position] in
  window ← deref (current_positions st);
  advanced ← lift (torch_cat1 (drop_oldest window) (unsqueeze1 next_position));
  new_positions ← alloc advanced;
  mret {| current_positions := new_positions;
          updated_predictions := predictions;
          kinematic_mask := Some mask |}.

(** The loop of line 220 over the steps [steps]. *)
Definition rollout_loop (model : Params) (features : Features)
    (global_context : option (Tensor2 Scalar)) (steps : list nat)
    (st : LoopState) : Py LoopState :=
  for_each steps (rollout_step model features global_context) st.

(** *** Lines 284-295: the dictionary [rollout_op] *)
Definition rollout_op (initial_positions_list updated_predictions_list
    : list (list Pos)) (particle_types_list : list Z)
    (global_context_list : list (list Scalar)) : gmap string Value :=
  <["metadata" := VMetadata metadata]>
    (<["global_context" := VScalars global_context_list]>
       (<["particle_types" := VInts particle_types_list]>
          (<["predicted_rollout" := VPositions updated_predictions_list]>
             (<["initial_positions" := VPositions initial_positions_list]>
                ∅)))).

(** *** Lines 197-301: the rollout of one example and its record *)
Definition rollout_example (model : Params) (example_index : nat)
    (features : Features) : Py unit :=
  initial_positions ← alloc (slice_time W (position features));
  global_context ← to_device (step_context features);
  length_of_context ← shape0_of global_context;
  let num_steps := length_of_context - Z.of_nat W in
  st ← rollout_loop model features global_context (range num_steps)
         {| current_positions := initial_positions;
            updated_predictions := [];
            kinematic_mask := None |};
  stacked ← lift (torch_stack (updated_predictions st));
  initial_positions_list ← deref initial_positions;
  let updated_predictions_list := stacked in
  let particle_types_list := particle_type features in
  global_context_list ← tolist global_context;
  let record := rollout_op initial_positions_list updated_predictions_list
                  particle_types_list global_context_list in
  let filename := rollout_filename C example_index in
  present ← os_path_exists (output_path C);
  _ ← (if negb present then os_makedirs (output_path C) else mret tt);
  json_dump filename record.

(** *** Lines 157-195: the first iteration runs the model once on the
    example and then loads the checkpoint *)
Definition load_model (model : Params) (features : Features) : Py Params :=
  global_context ← to_device (step_context features);
  let global_context_step :=
    match global_context with
    | None => None
    | Some gc => Some (reshape_row (slice_rows (-1) gc))
    end in
  global_context_arg ← to_device global_context_step;
  _ ← model_inference model
    {| arg_position_sequence := slice_time W (position features);
       arg_n_particles_per_example := n_particles_per_example features;
       arg_n_edges_per_example := n_edges_per_example features;
       arg_senders := senders features;
       arg_receivers := receivers features;
       arg_predict_length := PREDICT_LENGTH;
       arg_particle_types := particle_type features;
       arg_global_context := global_context_arg |};
  lift (load_state_dict model).

(** The variables the dataset loop of line 156 rebinds. *)
Record InferenceState := {
  loaded : bool;
  model_of : Params;
  example_index_of : nat;
}.

(** *** Lines 156-304: the body of the dataset loop *)
Definition Inference_body (st : InferenceState)
    (example : Features * Targets) : Py InferenceState :=
  let features := example.1 in
  model ← (if loaded st then mret (model_of st)
           else load_model (model_of st) features);
  _ ← rollout_example model (example_index_of st) features;
  mret {| loaded := true; model_of := model;
          example_index_of := S (example_index_of st) |}.

(** *** Lines 152-304: [Inference], from the model built at line 142 *)
Definition Inference (model : Params) (dataset : list (Features * Targets))
    : Py InferenceState :=
  for_each dataset Inference_body
    {| loaded := false; model_of := model; example_index_of := 0%nat |}.

(** *** Notions used in the statements *)

(** The keyword arguments built at lines 235-246 from the example, the
    window and the context. *)
Definition call_args (features : Features) (window : list (list Pos))
    (ctx : option (Tensor2 Scalar)) : InferenceArgs :=
  {| arg_position_sequence := window;
     arg_n_particles_per_example := n_particles_per_example features;
     arg_n_edges_per_example := n_edges_per_example features;
     arg_senders := senders features;
     arg_receivers := receivers features;
     arg_predict_length := PREDICT_LENGTH;
     arg_particle_types := particle_type features;
     arg_global_context := ctx |}.

(** The world in which the loop of an example starts: the object bound
    to [initial_positions] has just been created. *)
Definition loop_start (features : Features) (w : World) : World :=
  {| heap := heap w ++ [slice_time W (position features)];
     dirs := dirs w; files := files w; calls := calls w |}.

Definition loop_init (w : World) : LoopState :=
  {| current_positions := length (heap w);
     updated_predictions := [];
     kinematic_mask := None |}.

(** [m] leaves the files and the directories as they are. *)
Definition keeps_files {A} (m : Py A) : Prop :=
  ∀ w, files (m w).1 = files w ∧ dirs (m w).1 = dirs w.

Definition raising_keeps_files {A} (m : Py A) : Prop :=
  ∀ w w' e, m w = (w', Raised e) → files w' = files w.

(** Two examples present the same inputs to a rollout when they agree on
    the first [W] snapshots, the topology, the particle types and the
    context. *)
Definition same_inputs (f1 f2 : Features) : Prop :=
  slice_time W (position f1) = slice_time W (position f2) ∧
  n_particles_per_example f1 = n_particles_per_example f2 ∧
  n_edges_per_example f1 = n_edges_per_example f2 ∧
  senders f1 = senders f2 ∧ receivers f1 = receivers f2 ∧
  particle_type f1 = particle_type f2 ∧
  step_context f1 = step_context f2.

(** Two loop states carry the same data when their windows hold the same
    values and their predictions are equal. *)
Definition same_state (st1 : LoopState) (w1 : World)
    (st2 : LoopState) (w2 : World) : Prop :=
  heap w1 !!! current_positions st1 = heap w2 !!! current_positions st2 ∧
  updated_predictions st1 = updated_predictions st2.

Definition same_result (r1 r2 : World * Outcome LoopState) : Prop :=
  match r1, r2 with
  | (w1, Returned st1), (w2, Returned st2) => same_state st1 w1 st2 w2
  | (_, Raised e1), (_, Raised e2) => e1 = e2
  | _, _ => False
  end.

(** Whether the simulator has been called on the particles and edges of
    [features]. *)
Definition rollout_ran (w : World) (features : Features) : bool :=
  bool_decide (Exists (λ args,
    arg_particle_types args = particle_type features ∧
    arg_senders args = senders features ∧
    arg_receivers args = receivers features) (calls w)).

(** The trajectory stored under [name], if a record is there. *)
Definition predicted_rollout_of (w : World) (name : string) : option Value :=
  files w !! name ≫= (λ record : gmap string Value, record !! "predicted_rollout").

(** A simulator is well shaped when every call returns one non-empty row
    of predictions per particle of the window it was given. *)
Definition well_shaped (model : Params) : Prop :=
  ∀ args, ∃ y,
    inference model args = Returned y ∧
    length y = length (arg_position_sequence args) ∧
    Forall (λ r, r ≠ []) y.

(** The number of rollout steps of an example: the length of its context
    less the window, none when that is not positive. *)
Definition steps_of (example : Features * Targets) : nat :=
  match step_context example.1 with
  | Some gc => Z.to_nat (shape0 gc - Z.of_nat W)
  | None => 0%nat
  end.

(** What every call of the engine to the simulator gives it: a context
    that is not [None], and [PREDICT_LENGTH] as the number of steps to
    predict. *)
Definition call_ok (args : InferenceArgs) : Prop :=
  is_Some (arg_global_context args) ∧ arg_predict_length args = PREDICT_LENGTH.

(** The position tensor of a call has [n] particles and [W] snapshots for
    each. *)
Definition window_shape (n : nat) (args : InferenceArgs) : Prop :=
  length (arg_position_sequence args) = n ∧
  Forall (λ r, length r = W) (arg_position_sequence args).

(** The keyword arguments of the call of lines 166-179, made on the first
    example before the checkpoint is loaded. *)
Definition warmup_args (features : Features) (gc : Tensor2 Scalar)
  : InferenceArgs :=
  call_args features (slice_time W (position features))
    (Some (reshape_row (slice_rows (-1) gc))).

(** [m] only adds to the trace of calls, and adds only calls satisfying
    [P]. *)
Definition extends_calls {A} (P : InferenceArgs → Prop) (m : Py A) : Prop :=
  ∀ w, ∃ new, calls (m w).1 = calls w ++ new ∧ Forall P new.

(** * Lemmas *)

(** File names are distinct for distinct example indices. *)

Lemma list_ascii_of_append (s t : string) :
  String.list_ascii_of_string (s +:+ t)
  = String.list_ascii_of_string s ++ String.list_ascii_of_string t.
Proof.
  induction s as [|c s IH]; [done|].
  change (c :: String.list_ascii_of_string (s +:+ t)
          = c :: (String.list_ascii_of_string s ++ String.list_ascii_of_string t)).
  by rewrite IH.
Qed.

Lemma append_assoc (a b c : string) : (a +:+ b) +:+ c = a +:+ b +:+ c.
Proof.
  induction a as [|x a IH]; [done|].
  change (String x ((a +:+ b) +:+ c) = String x (a +:+ b +:+ c)).
  by rewrite IH.
Qed.

Lemma append_inj_l (t : string) : Inj (=) (=) (λ s, s +:+ t).
Proof.
  intros s1 s2 H. apply (f_equal String.list_ascii_of_string) in H.
  rewrite !list_ascii_of_append in H. apply app_inv_tail in H.
  apply (f_equal String.string_of_list_ascii) in H.
  by rewrite !String.string_of_list_ascii_of_string in H.
Qed.

Lemma os_path_join_relative (a b : string) :
  (∀ b', b ≠ String "/" b') →
  ∃ prefix, prefix = (if bool_decide (a = "") || ends_with_slash a
                      then a else a +:+ "/")
            ∧ os_path_join a b = prefix +:+ b.
Proof.
  intros Hb. eexists; split; [done|]. unfold os_path_join.
  pose proof (append_assoc a "/" b) as Hassoc.
  destruct b as [|c b].
  - by destruct (_ || _).
  - destruct (decide (c = "/"%char)) as [->|Hc]; [by destruct (Hb b)|].
    destruct (_ || _).
    + destruct c as [[] [] [] [] [] [] [] []]; done.
    + rewrite Hassoc. destruct c as [[] [] [] [] [] [] [] []]; done.
Qed.

Lemma rollout_filename_inj : Inj (=) (=) (rollout_filename C).
Proof.
  intros i j H. unfold rollout_filename in H.
  destruct (os_path_join_relative (output_path C)
    ("rollout_" +:+ eval_split C +:+ "_" +:+ pretty i +:+ ".json"))
    as (pre & Hpre & Ei); [done|].
  destruct (os_path_join_relative (output_path C)
    ("rollout_" +:+ eval_split C +:+ "_" +:+ pretty j +:+ ".json"))
    as (pre' & Hpre' & Ej); [done|].
  rewrite Ei, Ej in H. subst pre pre'.
  apply String.app_inj in H.
  apply (inj (String.app "rollout_")) in H.
  apply String.app_inj in H. apply (inj (String.app "_")) in H.
  apply (append_inj_l ".json") in H.
  by apply (inj pretty) in H.
Qed.

(** ** Reasoning about [Py] computations *)

Lemma bind_returned {A B} (m : Py A) (k : A → Py B) w w' y :
  (m ≫= k) w = (w', Returned y) →
  ∃ x w1, m w = (w1, Returned x) ∧ k x w1 = (w', Returned y).
Proof.
  unfold mbind, Py_bind. destruct (m w) as [w1 [x|e]]; [eauto | discriminate].
Qed.

Lemma bind_raised {A B} (m : Py A) (k : A → Py B) w w' e :
  (m ≫= k) w = (w', Raised e) →
  m w = (w', Raised e) ∨
  ∃ x w1, m w = (w1, Returned x) ∧ k x w1 = (w', Raised e).
Proof.
  unfold mbind, Py_bind. destruct (m w) as [w1 [x|e']]; intros H.
  - right. eauto.
  - left. by simplify_eq.
Qed.

Lemma bind_step {A B} (m : Py A) (k : A → Py B) w w1 x :
  m w = (w1, Returned x) → (m ≫= k) w = k x w1.
Proof. unfold mbind, Py_bind. by intros ->. Qed.

Lemma bind_abort {A B} (m : Py A) (k : A → Py B) w w1 e :
  m w = (w1, Raised e) → (m ≫= k) w = (w1, Raised e).
Proof. unfold mbind, Py_bind. by intros ->. Qed.

Lemma for_each_app {X S} (xs ys : list X) (body : S → X → Py S) s w :
  for_each (xs ++ ys) body s w =
  (for_each xs body s ≫= for_each ys body) w.
Proof.
  revert s w. induction xs as [|x xs IH]; intros s w; simpl.
  - done.
  - unfold mbind, Py_bind in *.
    destruct (body s x w) as [w1 [s1|e]]; [apply IH | done].
Qed.


(** ** The context window *)

Lemma elem_of_range k n : k ∈ range n ↔ Z.of_nat k < n.
Proof. unfold range. rewrite elem_of_seq. lia. Qed.

Lemma last_range n :
  0 < n → last (range n) = Some (Z.to_nat (n - 1)).
Proof.
  intros Hn. unfold range.
  replace (Z.to_nat n) with (S (Z.to_nat (n - 1))) by lia.
  rewrite seq_S, last_snoc. done.
Qed.

Lemma concat_singletons {A} (l : list A) : concat (map (λ x, [x]) l) = l.
Proof. induction l as [|x l IH]; simpl; [done | by rewrite IH]. Qed.

Lemma concat_replicate_singleton {A} n (x : A) :
  concat (replicate n [x]) = replicate n x.
Proof. induction n as [|n IH]; simpl; [done | by rewrite IH]. Qed.

Lemma slice_stop_nonneg (n len : nat) :
  slice_stop (Z.of_nat n) len = n.
Proof.
  unfold slice_stop. destruct (Z.ltb_spec (Z.of_nat n) 0); lia.
Qed.

(** The number of rows read at [step], and the padding the source asks
    [torch.zeros] for. *)
Lemma shape0_read_step_context (gc : Tensor2 Scalar) (step : nat) :
  shape0 (slice_rows (Z.of_nat step + Z.of_nat W) gc)
  = Z.min (Z.of_nat step + Z.of_nat W) (shape0 gc).
Proof.
  unfold shape0, slice_rows; simpl.
  rewrite <- Nat2Z.inj_add, slice_stop_nonneg, length_take. lia.
Qed.

Lemma context_step_world gc step w : (context_step gc step w).1 = w.
Proof.
  unfold context_step. destruct gc as [gc|]; [|done].
  unfold mbind, Py_bind, lift, mret, Py_ret.
  destruct (torch_zeros _ _ _) as [zp|e]; [|done].
  destruct (torch_cat0 _ zp) as [t|e]; done.
Qed.

Lemma context_step_column (xs : list Scalar) (step : nat) w :
  (step + W < length xs)%nat →
  context_step (Some (column xs)) step w =
  (w, Returned (Some (row (take (step + W) xs ++
                           replicate (length xs - 1 - (step + W)) zero)))).
Proof.
  intros Hk. unfold context_step.
  unfold mbind, Py_bind, lift, mret, Py_ret.
  rewrite shape0_read_step_context.
  unfold shape0 at 1 2. simpl. rewrite length_map.
  unfold torch_zeros.
  destruct (Z.ltb_spec
    (Z.of_nat (length xs)
     - Z.min (Z.of_nat step + Z.of_nat W) (Z.of_nat (length xs)) - 1) 0)
    as [Hneg|Hpos]; [lia|].
  unfold torch_cat0; simpl.
  unfold reshape_row, row; simpl.
  rewrite <- Nat2Z.inj_add, slice_stop_nonneg.
  replace (Z.to_nat _) with (length xs - 1 - (step + W))%nat by lia.
  rewrite concat_app, concat_replicate_singleton.
  rewrite firstn_map, concat_singletons. done.
Qed.


(** ** One step of the loop *)

(** What a step that returns has done. *)
Lemma rollout_step_returned model features gc st step w st' w' :
  rollout_step model features gc st step w = (w', Returned st') →
  ∃ ctx y next,
    let window := heap w !!! current_positions st in
    let args := call_args features window (Some ctx) in
    context_step gc step w = (w, Returned (Some ctx)) ∧
    inference model args = Returned y ∧
    select_first y = Returned next ∧
    length window = length next ∧
    w' = {| heap := heap w ++
              [zip_with app (drop_oldest window) (unsqueeze1 next)];
            dirs := dirs w; files := files w;
            calls := calls w ++ [args] |} ∧
    st' = {| current_positions := length (heap w);
             updated_predictions := updated_predictions st ++ [next];
             kinematic_mask :=
               Some (get_kinematic_mask (particle_type features)) |}.
Proof.
  unfold rollout_step. intros H.
  apply bind_returned in H as (ctx & w1 & Hctx & H).
  pose proof (context_step_world gc step w) as Hw.
  rewrite Hctx in Hw; simpl in Hw; subst w1.
  apply bind_returned in H as (window & w1 & Hd & H).
  unfold deref in Hd. injection Hd as <- <-.
  apply bind_returned in H as (ctx' & w1 & Hto & H).
  destruct ctx as [ctx|]; [|discriminate].
  unfold to_device, mret, Py_ret in Hto. injection Hto as <- <-.
  apply bind_returned in H as (y & w1 & Hinf & H).
  unfold model_inference in Hinf. injection Hinf as <- Hinf.
  apply bind_returned in H as (next & w1 & Hsel & H).
  unfold lift in Hsel. injection Hsel as <- Hsel.
  apply bind_returned in H as (window' & w1 & Hd & H).
  unfold deref in Hd; simpl in Hd. injection Hd as <- <-.
  apply bind_returned in H as (adv & w1 & Hcat & H).
  unfold lift, torch_cat1 in Hcat. injection Hcat as <- Hcat.
  unfold drop_oldest at 1, unsqueeze1 at 1 in Hcat.
  rewrite !length_map in Hcat.
  destruct (Nat.eqb_spec (length (heap w !!! current_positions st))
              (length next)) as [Hlen|]; [|discriminate].
  injection Hcat as <-.
  apply bind_returned in H as (l & w1 & Ha & H).
  unfold alloc in Ha; simpl in Ha. injection Ha as <- <-.
  unfold mret, Py_ret in H. injection H as <- <-.
  exists ctx, y, next. simpl. repeat split; done.
Qed.

(** A step raises before the simulator is reached when the context is
    [None] (line 245). *)
Lemma rollout_step_no_context model features st step w :
  rollout_step model features None st step w = (w, Raised AttributeError).
Proof. done. Qed.

(** ** Advancing the window *)

Lemma advance_rows (window : list (list Pos)) (next : list Pos) :
  zip_with app (drop_oldest window) (unsqueeze1 next)
  = zip_with (λ r p, drop 1 r ++ [p]) window next.
Proof.
  revert next. induction window as [|r window IH]; intros [|p next];
    simpl; try done.
  by rewrite <- IH.
Qed.

Lemma advance_length (window : list (list Pos)) (next : list Pos) :
  (0 < W)%nat →
  Forall (λ r, length r = W) window →
  Forall (λ r, length r = W) (zip_with (λ r p, drop 1 r ++ [p]) window next).
Proof.
  intros HW Hall. revert next.
  induction Hall as [|r window Hr Hall IH]; intros [|p next]; simpl;
    try constructor; [|apply IH].
  rewrite length_app, length_drop. simpl. lia.
Qed.

Lemma advance_last (window : list (list Pos)) (next : list Pos) :
  length window = length next →
  Forall2 (λ r p, last r = Some p)
    (zip_with (λ r p, drop 1 r ++ [p]) window next) next.
Proof.
  revert next. induction window as [|r window IH]; intros [|p next] Hlen;
    simpl in *; try discriminate; constructor.
  - apply last_snoc.
  - apply IH. lia.
Qed.

Lemma initial_window_length (p : list (list Pos)) :
  Forall (λ r, (W ≤ length r)%nat) p →
  Forall (λ r, length r = W) (slice_time W p).
Proof.
  unfold slice_time. induction 1 as [|r p Hr Hall IH]; simpl; constructor;
    [|done].
  rewrite length_take. lia.
Qed.

(** ** The rollout loop *)

Lemma context_step_anywhere gc step w1 w2 o :
  context_step gc step w1 = (w1, o) → context_step gc step w2 = (w2, o).
Proof.
  unfold context_step. destruct gc as [gc|].
  - unfold mbind, Py_bind, lift, mret, Py_ret.
    destruct (torch_zeros _ _ _) as [zp|e]; [|by intros [= <-]].
    destruct (torch_cat0 _ zp) as [t|e]; by intros [= <-].
  - unfold mret, Py_ret. by intros [= <-].
Qed.

Lemma rollout_loop_cons model features gc step steps st w :
  rollout_loop model features gc (step :: steps) st w
  = (rollout_step model features gc st step
       ≫= rollout_loop model features gc steps) w.
Proof. done. Qed.


(** What a loop that returns has done: it only created tensor objects,
    touched neither directories nor files, and made one simulator call
    per step whose selected output it appended, in step order. *)
Lemma rollout_loop_trace model features gc steps st w st' w' :
  rollout_loop model features gc steps st w = (w', Returned st') →
  ∃ ext new newcalls,
    heap w' = heap w ++ ext ∧ dirs w' = dirs w ∧ files w' = files w ∧
    calls w' = calls w ++ newcalls ∧
    updated_predictions st' = updated_predictions st ++ new ∧
    length ext = length steps ∧ length new = length steps ∧
    length newcalls = length steps ∧
    ∀ i step, steps !! i = Some step →
      ∃ window ctx y p,
        context_step gc step w = (w, Returned (Some ctx)) ∧
        newcalls !! i = Some (call_args features window (Some ctx)) ∧
        inference model (call_args features window (Some ctx)) = Returned y ∧
        select_first y = Returned p ∧ new !! i = Some p.
Proof.
  revert st w. induction steps as [|step steps IH]; intros st w H.
  - unfold rollout_loop in H; simpl in H.
    unfold mret, Py_ret in H. simplify_eq.
    exists [], [], []. rewrite !app_nil_r. repeat split; try done.
  - rewrite rollout_loop_cons in H.
    apply bind_returned in H as (st1 & w1 & Hstep & H).
    apply IH in H as (ext & new & newcalls & Hh & Hd & Hf & Hc & Hp
                      & Le & Ln & Lc & Hi).
    apply rollout_step_returned in Hstep
      as (ctx & y & next & Hctx & Hinf & Hsel & Hlen & -> & ->).
    simpl in *.
    eexists (_ :: ext), (next :: new), (_ :: newcalls).
    rewrite Hh, Hc, Hp, <- !app_assoc. simpl.
    repeat split; try done; try (f_equal; done).
    intros [|i] k Hk; simpl in Hk.
    + simplify_eq. exists (heap w !!! current_positions st), ctx, y, next.
      done.
    + destruct (Hi i k Hk) as (window & ctx' & y' & p & H1 & H2 & H3 & H4 & H5).
      exists window, ctx', y', p. repeat split; try done.
      eapply context_step_anywhere, H1.
Qed.

(** ** The rollout of one example *)

Lemma torch_stack_returned {A} (ts ts' : list (list A)) :
  torch_stack ts = Returned ts' → ts' = ts ∧ ts ≠ [].
Proof.
  unfold torch_stack. destruct ts as [|t ts]; [done|].
  destruct (forallb _ ts); [|done]. by intros [= <-].
Qed.

Lemma rollout_example_returned model idx features w w' :
  rollout_example model idx features w = (w', Returned tt) →
  ∃ gc st w1,
    step_context features = Some gc ∧
    rollout_loop model features (Some gc)
      (range (shape0 gc - Z.of_nat W)) (loop_init w) (loop_start features w)
    = (w1, Returned st) ∧
    updated_predictions st ≠ [] ∧
    output_path C ≠ "" ∧
    w' = {| heap := heap w1;
            dirs := if bool_decide (output_path C ∈ dirs w1
                                    ∨ output_path C ∈ dom (files w1))
                    then dirs w1
                    else {[output_path C]}
                         ∪ list_to_set (parent_directories (output_path C))
                         ∪ dirs w1;
            files := <[rollout_filename C idx :=
                         rollout_op (heap w1 !!! length (heap w))
                           (updated_predictions st)
                           (particle_type features) (rows gc)]> (files w1);
            calls := calls w1 |}.
Proof.
  unfold rollout_example. intros H.
  apply bind_returned in H as (l0 & w0 & Ha & H).
  unfold alloc in Ha. injection Ha as <- <-.
  apply bind_returned in H as (gc & w1 & Hto & H).
  destruct (step_context features) as [gc0|]; [|discriminate].
  unfold to_device, mret, Py_ret in Hto. injection Hto as <- <-.
  apply bind_returned in H as (n & w1 & Hn & H).
  unfold shape0_of, mret, Py_ret in Hn. injection Hn as <- <-.
  apply bind_returned in H as (st & w1 & Hloop & H).
  apply bind_returned in H as (stacked & w2 & Hst & H).
  unfold lift in Hst. injection Hst as <- Hst.
  apply torch_stack_returned in Hst as [-> Hne].
  apply bind_returned in H as (ip & w2 & Hd & H).
  unfold deref in Hd. injection Hd as <- <-.
  apply bind_returned in H as (gl & w2 & Hl & H).
  unfold tolist, mret, Py_ret in Hl. injection Hl as <- <-.
  apply bind_returned in H as (present & w2 & He & H).
  unfold os_path_exists in He. injection He as <- <-.
  apply bind_returned in H as ([] & w2 & Hm & H).
  exists gc0, st, w1. split; [done|]. split; [exact Hloop|]. split; [done|].
  unfold json_dump in H. injection H as <-.
  case_bool_decide as Hex; simpl in Hm.
  - unfold mret, Py_ret in Hm. injection Hm as <-.
    destruct Hex as [Hpath Hex]. split; [done|].
    by rewrite bool_decide_eq_true_2.
  - unfold os_makedirs in Hm.
    case_bool_decide as Hpath; [discriminate|]. injection Hm as <-.
    split; [done|]. simpl.
    rewrite bool_decide_eq_false_2; [done|]. intros Hex'. by apply Hex.
Qed.

(** ** Which computations write files *)

Lemma keeps_files_bind {A B} (m : Py A) (k : A → Py B) :
  keeps_files m → (∀ x, keeps_files (k x)) → keeps_files (m ≫= k).
Proof.
  intros Hm Hk w. unfold mbind, Py_bind. destruct (Hm w) as [Hf Hd].
  destruct (m w) as [w1 [x|e]]; simpl in *; [|done].
  destruct (Hk x w1) as [Hf' Hd']. by rewrite Hf', Hd'.
Qed.

Lemma raising_keeps_files_bind {A B} (m : Py A) (k : A → Py B) :
  keeps_files m → (∀ x, raising_keeps_files (k x)) →
  raising_keeps_files (m ≫= k).
Proof.
  intros Hm Hk w w' e H. destruct (Hm w) as [Hf _].
  apply bind_raised in H as [H | (x & w1 & H1 & H2)].
  - by rewrite H in Hf.
  - rewrite H1 in Hf; simpl in Hf. rewrite <- Hf. by eapply Hk.
Qed.

Lemma keeps_files_raising {A} (m : Py A) :
  keeps_files m → raising_keeps_files m.
Proof. intros Hm w w' e H. destruct (Hm w) as [Hf _]. by rewrite H in Hf. Qed.

Lemma keeps_files_ret {A} (x : A) : keeps_files (mret x).
Proof. done. Qed.

Lemma keeps_files_lift {A} (o : Outcome A) : keeps_files (lift o).
Proof. done. Qed.

Lemma keeps_files_to_device {A} (x : option A) : keeps_files (to_device x).
Proof. by destruct x. Qed.

Lemma keeps_files_context_step gc step : keeps_files (context_step gc step).
Proof. intros w. by rewrite context_step_world. Qed.

Lemma keeps_files_for_each {X S} (xs : list X) (body : S → X → Py S) s :
  (∀ s x, keeps_files (body s x)) → keeps_files (for_each xs body s).
Proof.
  intros Hb. revert s. induction xs as [|x xs IH]; intros s; simpl.
  - apply keeps_files_ret.
  - apply keeps_files_bind; [apply Hb | apply IH].
Qed.

Ltac keeps_files :=
  repeat first
    [ apply keeps_files_bind; [|intros ?]
    | apply keeps_files_ret | apply keeps_files_lift
    | apply keeps_files_to_device | apply keeps_files_context_step
    | (intros ?; split; reflexivity) ].

Lemma keeps_files_rollout_step model features gc st step :
  keeps_files (rollout_step model features gc st step).
Proof. unfold rollout_step. keeps_files. Qed.

Lemma keeps_files_rollout_loop model features gc steps st :
  keeps_files (rollout_loop model features gc steps st).
Proof.
  apply keeps_files_for_each. intros. apply keeps_files_rollout_step.
Qed.

Lemma keeps_files_load_model model features :
  keeps_files (load_model model features).
Proof. unfold load_model. keeps_files. Qed.

(** An example whose rollout raises has written nothing. *)
Lemma raising_keeps_files_rollout_example model idx features :
  raising_keeps_files (rollout_example model idx features).
Proof.
  unfold rollout_example.
  apply raising_keeps_files_bind; [done | intros l0].
  apply raising_keeps_files_bind; [apply keeps_files_to_device | intros gc].
  apply raising_keeps_files_bind; [by destruct gc | intros n].
  apply raising_keeps_files_bind;
    [apply keeps_files_rollout_loop | intros st].
  apply raising_keeps_files_bind; [apply keeps_files_lift | intros stacked].
  apply raising_keeps_files_bind; [done | intros ip].
  apply raising_keeps_files_bind; [by destruct gc | intros gl].
  apply raising_keeps_files_bind; [done | intros present].
  intros w w' e H. unfold mbind, Py_bind in H.
  destruct (negb present); [|discriminate].
  unfold os_makedirs in H. case_bool_decide; [|discriminate].
  by injection H as <-.
Qed.

Lemma raising_keeps_files_Inference_body st example :
  raising_keeps_files (Inference_body st example).
Proof.
  unfold Inference_body. intros w w' e H.
  apply bind_raised in H as [H | (model & w1 & H1 & H)].
  - destruct (loaded st); [discriminate|].
    by eapply keeps_files_raising, H; apply keeps_files_load_model.
  - assert (files w1 = files w) as <-.
    { destruct (loaded st).
      - unfold mret, Py_ret in H1. by simplify_eq.
      - destruct (keeps_files_load_model (model_of st) example.1 w)
          as [Hk _].
        by rewrite H1 in Hk. }
    apply bind_raised in H as [H | (u & w2 & H2 & H)]; [|discriminate].
    by eapply raising_keeps_files_rollout_example.
Qed.

(** ** The record of an example *)

Lemma length_range n : length (range n) = Z.to_nat n.
Proof. unfold range. apply length_seq. Qed.

Lemma rollout_example_record model idx features w w' :
  rollout_example model idx features w = (w', Returned tt) →
  ∃ gc preds,
    step_context features = Some gc ∧
    length preds = Z.to_nat (shape0 gc - Z.of_nat W) ∧ preds ≠ [] ∧
    files w' = <[rollout_filename C idx :=
                   rollout_op (slice_time W (position features)) preds
                     (particle_type features) (rows gc)]> (files w) ∧
    dirs w ⊆ dirs w' ∧
    (output_path C ∈ dirs w' ∨ output_path C ∈ dom (files w)).
Proof.
  intros (gc & st & w1 & Hgc & Hloop & Hne & _ & ->)%rollout_example_returned.
  apply rollout_loop_trace in Hloop
    as (ext & new & newcalls & Hh & Hd & Hf & Hc & Hp & Le & Ln & Lc & _).
  simpl in *. subst new.
  exists gc, (updated_predictions st).
  rewrite Hh, Hd, Hf, length_range in *.
  rewrite <- app_assoc, lookup_total_app_r, Nat.sub_diag by done. simpl.
  repeat split; try done.
  - case_bool_decide; [done | apply union_subseteq_r].
  - case_bool_decide as Hex; [destruct Hex; auto |].
    left. apply elem_of_union_l, elem_of_union_l. by apply elem_of_singleton.
Qed.

Lemma load_model_dirs model features w :
  dirs (load_model model features w).1 = dirs w.
Proof.
  unfold load_model. destruct (step_context features) as [gc|]; [|done].
  unfold mbind, Py_bind, to_device, mret, Py_ret, model_inference, lift.
  simpl. destruct (inference _ _); done.
Qed.

Lemma Inference_body_returned st example w st' w' :
  Inference_body st example w = (w', Returned st') →
  ∃ model w0,
    files w0 = files w ∧ dirs w0 = dirs w ∧
    rollout_example model (example_index_of st) example.1 w0
    = (w', Returned tt) ∧
    st' = {| loaded := true; model_of := model;
             example_index_of := S (example_index_of st) |}.
Proof.
  unfold Inference_body. intros H.
  apply bind_returned in H as (model & w0 & Hm & H).
  apply bind_returned in H as ([] & w1 & Hr & H).
  unfold mret, Py_ret in H. injection H as <- <-.
  exists model, w0. repeat split; try done.
  - destruct (loaded st).
    + unfold mret, Py_ret in Hm. by simplify_eq.
    + destruct (keeps_files_load_model (model_of st) example.1 w) as [Hk _].
      by rewrite Hm in Hk.
  - destruct (loaded st).
    + unfold mret, Py_ret in Hm. by simplify_eq.
    + pose proof (load_model_dirs (model_of st) example.1 w) as Hk.
      by rewrite Hm in Hk.
Qed.

(** The records left by a run over [dataset] that returns. *)
Lemma Inference_records dataset st w st' w' :
  for_each dataset Inference_body st w = (w', Returned st') →
  example_index_of st' = (example_index_of st + length dataset)%nat ∧
  dirs w ⊆ dirs w' ∧
  (∀ i example, dataset !! i = Some example →
     ∃ gc preds,
       step_context example.1 = Some gc ∧
       length preds = Z.to_nat (shape0 gc - Z.of_nat W) ∧
       files w' !! rollout_filename C (example_index_of st + i)
       = Some (rollout_op (slice_time W (position example.1)) preds
                 (particle_type example.1) (rows gc))) ∧
  (∀ p, (∀ i, (i < length dataset)%nat →
              p ≠ rollout_filename C (example_index_of st + i)) →
        files w' !! p = files w !! p) ∧
  (dataset ≠ [] →
   output_path C ∈ dirs w' ∨ output_path C ∈ dom (files w)).
Proof.
  revert st w. induction dataset as [|ex dataset IH]; intros st w H.
  - simpl in H. unfold mret, Py_ret in H. simplify_eq.
    repeat split; try done; simpl; lia.
  - simpl in H. apply bind_returned in H as (st1 & w1 & Hb & H).
    apply IH in H as (Hidx & Hdirs & Hrec & Hother & _).
    apply Inference_body_returned in Hb
      as (model & w0 & Hf0 & Hd0 & Hex & ->).
    apply rollout_example_record in Hex
      as (gc & preds & Hgc & Hlen & _ & Hf & Hd & Hout).
    simpl in *. rewrite Hf0 in *. rewrite Hd0 in *.
    split; [lia|]. split; [by etrans|]. split; [|split].
    + intros [|i] example Hi; simpl in Hi.
      * simplify_eq. exists gc, preds. repeat split; try done.
        rewrite Hother, Hf, Nat.add_0_r; [apply lookup_insert_eq|].
        intros j _ Heq%rollout_filename_inj. lia.
      * destruct (Hrec i example Hi) as (gc' & preds' & ? & ? & Hl).
        exists gc', preds'. repeat split; try done.
        by replace (example_index_of st + S i)%nat
          with (S (example_index_of st) + i)%nat by lia.
    + intros p Hp. rewrite Hother, Hf.
      * apply lookup_insert_ne. specialize (Hp 0%nat).
        rewrite Nat.add_0_r in Hp. intros Heq. apply Hp; [lia | done].
      * intros j Hj. specialize (Hp (S j)).
        rewrite Nat.add_succ_r in Hp. apply Hp. lia.
    + intros _. destruct Hout as [Hout|Hout]; [left; by apply Hdirs | by right].
Qed.

(** ** What a rollout depends on *)

(** A step written out by cases. *)
Lemma rollout_step_eq model features gc st step w :
  rollout_step model features gc st step w =
  match (context_step gc step w).2 with
  | Raised e => (w, Raised e)
  | Returned None => (w, Raised AttributeError)
  | Returned (Some ctx) =>
      let window := heap w !!! current_positions st in
      let args := call_args features window (Some ctx) in
      let called := {| heap := heap w; dirs := dirs w; files := files w;
                       calls := calls w ++ [args] |} in
      match outcome_bind (inference model args) select_first with
      | Raised e => (called, Raised e)
      | Returned next =>
          if (length window =? length next)%nat
          then ({| heap := heap w ++
                     [zip_with app (drop_oldest window) (unsqueeze1 next)];
                   dirs := dirs w; files := files w;
                   calls := calls w ++ [args] |},
                Returned
                  {| current_positions := length (heap w);
                     updated_predictions := updated_predictions st ++ [next];
                     kinematic_mask :=
                       Some (get_kinematic_mask (particle_type features)) |})
          else (called, Raised RuntimeError)
      end
  end.
Proof.
  unfold rollout_step.
  pose proof (context_step_world gc step w) as Hw.
  unfold mbind at 1, Py_bind at 1.
  destruct (context_step gc step w) as [w1 [[ctx|]|e]]; simpl in Hw; subst w1;
    simpl; try done.
  unfold mbind, Py_bind, deref, to_device, mret, Py_ret, model_inference,
    lift, alloc, call_args; simpl.
  destruct (inference _ _) as [y|e]; simpl; [|done].
  destruct (select_first y) as [next|e]; simpl; [|done].
  unfold torch_cat1, drop_oldest at 1, unsqueeze1 at 1.
  rewrite !length_map.
  by destruct (_ =? _)%nat.
Qed.

Lemma call_args_same f1 f2 window ctx :
  same_inputs f1 f2 → call_args f1 window ctx = call_args f2 window ctx.
Proof.
  intros (_ & H1 & H2 & H3 & H4 & H5 & _). unfold call_args.
  by rewrite H1, H2, H3, H4, H5.
Qed.

Lemma rollout_step_same model f1 f2 gc st1 st2 step w1 w2 :
  same_inputs f1 f2 → same_state st1 w1 st2 w2 →
  same_result (rollout_step model f1 gc st1 step w1)
              (rollout_step model f2 gc st2 step w2).
Proof.
  intros Hin [Hwin Hpred]. rewrite !rollout_step_eq.
  assert ((context_step gc step w1).2 = (context_step gc step w2).2) as ->.
  { pose proof (context_step_world gc step w1) as Hw.
    destruct (context_step gc step w1) as [w1' o] eqn:E; simpl in Hw; subst.
    by rewrite (context_step_anywhere _ _ _ w2 _ E). }
  destruct (context_step gc step w2).2 as [[ctx|]|e]; simpl; try done.
  rewrite Hwin, (call_args_same f1 f2) by done.
  destruct (outcome_bind _ _) as [next|e]; simpl; [|done].
  destruct (_ =? _)%nat; simpl; [|done].
  split; simpl.
  - by rewrite !lookup_total_app_r, !Nat.sub_diag by done.
  - by rewrite Hpred.
Qed.

Lemma rollout_loop_same model f1 f2 gc steps st1 st2 w1 w2 :
  same_inputs f1 f2 → same_state st1 w1 st2 w2 →
  same_result (rollout_loop model f1 gc steps st1 w1)
              (rollout_loop model f2 gc steps st2 w2).
Proof.
  intros Hin. revert st1 st2 w1 w2.
  induction steps as [|step steps IH]; intros st1 st2 w1 w2 Hst.
  - done.
  - rewrite !rollout_loop_cons. unfold mbind, Py_bind.
    pose proof (rollout_step_same model f1 f2 gc st1 st2 step w1 w2 Hin Hst)
      as Hstep.
    destruct (rollout_step model f1 gc st1 step w1) as [w1' [s1'|e1]],
      (rollout_step model f2 gc st2 step w2) as [w2' [s2'|e2]];
      simpl in Hstep; try done.
    by apply IH.
Qed.

(** The rollout of an example written out by cases. *)
Lemma rollout_example_eq model idx features w :
  rollout_example model idx features w =
  match step_context features with
  | None => (loop_start features w, Raised AttributeError)
  | Some gc =>
      match rollout_loop model features (Some gc)
              (range (shape0 gc - Z.of_nat W)) (loop_init w)
              (loop_start features w) with
      | (w1, Raised e) => (w1, Raised e)
      | (w1, Returned st) =>
          match torch_stack (updated_predictions st) with
          | Raised e => (w1, Raised e)
          | Returned stacked =>
              if bool_decide (output_path C = "")
              then (w1, Raised FileNotFoundError)
              else
              ({| heap := heap w1;
                  dirs := if bool_decide (output_path C ∈ dirs w1
                                          ∨ output_path C ∈ dom (files w1))
                          then dirs w1
                          else {[output_path C]}
                               ∪ list_to_set
                                   (parent_directories (output_path C))
                               ∪ dirs w1;
                  files := <[rollout_filename C idx :=
                               rollout_op (heap w1 !!! length (heap w)) stacked
                                 (particle_type features) (rows gc)]>
                             (files w1);
                  calls := calls w1 |}, Returned tt)
          end
      end
  end.
Proof.
  unfold rollout_example.
  unfold mbind at 1, Py_bind at 1, alloc at 1.
  destruct (step_context features) as [gc|]; [|done].
  unfold mbind at 1, Py_bind at 1, to_device at 1, mret at 1, Py_ret at 1.
  unfold mbind at 1, Py_bind at 1, shape0_of at 1, mret at 1, Py_ret at 1.
  unfold mbind at 1, Py_bind at 1.
  fold (loop_start features w). fold (loop_init w).
  destruct (rollout_loop _ _ _ _ _ _) as [w1 [st|e]]; [|done].
  unfold mbind at 1, Py_bind at 1, lift at 1.
  destruct (torch_stack _) as [stacked|e]; [|done].
  unfold mbind, Py_bind, deref, tolist, os_path_exists, os_makedirs,
    json_dump, mret, Py_ret.
  destruct (decide (output_path C = "")) as [He|Hne].
  - rewrite (bool_decide_eq_true_2 _ He), bool_decide_eq_false_2; [done|].
    by intros [? _].
  - rewrite (bool_decide_eq_false_2 _ Hne).
    destruct (decide (output_path C ∈ dirs w1
                      ∨ output_path C ∈ dom (files w1))) as [Hex|Hex].
    + by rewrite !bool_decide_eq_true_2.
    + rewrite !bool_decide_eq_false_2; [done|done|]. by intros [_ ?].
Qed.

Lemma predicted_rollout_of_rollout_op fs name ip preds types ctx h d c :
  predicted_rollout_of
    {| heap := h; dirs := d;
       files := <[name := rollout_op ip preds types ctx]> fs; calls := c |}
    name
  = Some (VPositions preds).
Proof.
  unfold predicted_rollout_of; simpl. rewrite lookup_insert_eq; simpl.
  unfold rollout_op. by repeat (rewrite lookup_insert_ne by done).
Qed.

Lemma dom_rollout_op ip preds types ctx :
  dom (rollout_op ip preds types ctx)
  = {[ "initial_positions"; "predicted_rollout"; "particle_types";
       "global_context"; "metadata" ]}.
Proof.
  unfold rollout_op. rewrite !dom_insert_L, dom_empty_L.
  apply set_eq. intros k. rewrite !elem_of_union, !elem_of_singleton.
  rewrite elem_of_empty. tauto.
Qed.

Lemma select_first_returned (y : list (list Pos)) (next : list Pos) :
  select_first y = Returned next →
  length next = length y ∧ ∀ i r, y !! i = Some r → next !! i = head r.
Proof.
  revert next. induction y as [|r y IH]; intros next H; simpl in H.
  - by simplify_eq.
  - destruct r as [|q r]; [done|].
    destruct (select_first y) as [qs|e]; simpl in H; [|done].
    simplify_eq. destruct (IH qs eq_refl) as [Hlen Hi].
    split; [simpl; by rewrite Hlen|].
    intros [|i] r' Hr'; simpl in *; [by simplify_eq | by apply Hi].
Qed.

(** ** What a run leaves behind, however it ends *)

Lemma rollout_example_frame model idx features w :
  dirs w ⊆ dirs (rollout_example model idx features w).1 ∧
  ∀ p, p ≠ rollout_filename C idx →
       files (rollout_example model idx features w).1 !! p = files w !! p.
Proof.
  rewrite rollout_example_eq.
  destruct (step_context features) as [gc|]; [|done].
  destruct (keeps_files_rollout_loop model features (Some gc)
              (range (shape0 gc - Z.of_nat W)) (loop_init w)
              (loop_start features w)) as [Hf Hd].
  destruct (rollout_loop _ _ _ _ _ _) as [w1 [st|e]]; simpl in *;
    [|by rewrite Hf, Hd].
  destruct (torch_stack _) as [stacked|e]; simpl; [|by rewrite Hf, Hd].
  case_bool_decide; simpl; [by rewrite Hf, Hd|].
  rewrite Hf, Hd. split.
  - case_bool_decide; [done | apply union_subseteq_r].
  - intros p Hp. by rewrite lookup_insert_ne.
Qed.

Lemma Inference_body_frame st example w :
  dirs w ⊆ dirs (Inference_body st example w).1 ∧
  ∀ p, p ≠ rollout_filename C (example_index_of st) →
       files (Inference_body st example w).1 !! p = files w !! p.
Proof.
  assert (Hrest : ∀ model w0, files w0 = files w → dirs w0 = dirs w →
    dirs w ⊆ dirs ((rollout_example model (example_index_of st) example.1
                     ≫= λ _, mret {| loaded := true; model_of := model;
                          example_index_of := S (example_index_of st) |})
                    w0).1 ∧
    ∀ p, p ≠ rollout_filename C (example_index_of st) →
      files ((rollout_example model (example_index_of st) example.1
                ≫= λ _, mret {| loaded := true; model_of := model;
                     example_index_of := S (example_index_of st) |})
               w0).1 !! p = files w !! p).
  { intros model w0 Hf Hd. unfold mbind, Py_bind.
    destruct (rollout_example_frame model (example_index_of st) example.1 w0)
      as [Hd' Hf'].
    rewrite Hf, Hd in *.
    by destruct (rollout_example _ _ _ w0) as [w1 [[]|e]]. }
  unfold Inference_body. destruct (loaded st).
  - rewrite (bind_step _ _ w w (model_of st)) by done. by apply Hrest.
  - destruct (keeps_files_load_model (model_of st) example.1 w) as [Hf Hd].
    destruct (load_model (model_of st) example.1 w) as [w0 [model|e]] eqn:E;
      simpl in *.
    + rewrite (bind_step _ _ _ _ _ E). by apply Hrest.
    + rewrite (bind_abort _ _ _ _ _ E). simpl. by rewrite Hf, Hd.
Qed.

Lemma Inference_loop_frame dataset st w :
  dirs w ⊆ dirs (for_each dataset Inference_body st w).1 ∧
  ∀ p, (∀ j, (example_index_of st ≤ j < example_index_of st + length dataset)%nat
             → p ≠ rollout_filename C j) →
       files (for_each dataset Inference_body st w).1 !! p = files w !! p.
Proof.
  revert st w. induction dataset as [|ex dataset IH]; intros st w; [done|].
  simpl. unfold mbind, Py_bind.
  destruct (Inference_body_frame st ex w) as [Hd Hf].
  destruct (Inference_body st ex w) as [w1 [st1|e]] eqn:E; simpl in *.
  - apply Inference_body_returned in E as (model & w0 & _ & _ & _ & ->).
    destruct (IH {| loaded := true; model_of := model;
                    example_index_of := S (example_index_of st) |} w1)
      as [Hd' Hf']. simpl in *.
    split; [by etrans|]. intros p Hp.
    rewrite Hf', Hf; [done| |]; [apply Hp; lia | intros j Hj; apply Hp; lia].
  - split; [done|]. intros p Hp. apply Hf, Hp. lia.
Qed.

Lemma lookup_rollout_op ip preds types ctx :
  rollout_op ip preds types ctx !! "initial_positions" = Some (VPositions ip) ∧
  rollout_op ip preds types ctx !! "particle_types" = Some (VInts types) ∧
  rollout_op ip preds types ctx !! "global_context" = Some (VScalars ctx) ∧
  rollout_op ip preds types ctx !! "metadata" = Some (VMetadata metadata).
Proof.
  unfold rollout_op.
  repeat split; repeat (rewrite lookup_insert_ne by done);
    apply lookup_insert_eq.
Qed.

(** An example without a context raises before the simulator is reached,
    on the first iteration and on the later ones. *)
Lemma no_context_raises st example w :
  step_context example.1 = None →
  ∃ w', Inference_body st example w = (w', Raised AttributeError) ∧
        calls w' = calls w ∧ files w' = files w.
Proof.
  intros Hnone. unfold Inference_body. destruct (loaded st).
  - rewrite (bind_step _ _ w w (model_of st)) by done.
    rewrite (bind_abort _ _ w (loop_start example.1 w) AttributeError).
    + by eexists.
    + by rewrite rollout_example_eq, Hnone.
  - rewrite (bind_abort _ _ w w AttributeError).
    + by eexists.
    + unfold load_model. by rewrite Hnone.
Qed.

(** ** Rollouts that complete *)

Lemma select_first_returns (y : list (list Pos)) :
  Forall (λ r, r ≠ []) y →
  ∃ next, select_first y = Returned next ∧ length next = length y.
Proof.
  induction 1 as [|r y Hr _ (next & Hn & Hl)]; simpl.
  - by exists [].
  - destruct r as [|q r]; [done|]. rewrite Hn. simpl.
    exists (q :: next). by rewrite <- Hl.
Qed.

Lemma rollout_step_returns model features (xs : list Scalar) st step w :
  well_shaped model → (step + W < length xs)%nat →
  ∃ next,
    length next = length (heap w !!! current_positions st) ∧
    (rollout_step model features (Some (column xs)) st step w).2
    = Returned
        {| current_positions := length (heap w);
           updated_predictions := updated_predictions st ++ [next];
           kinematic_mask :=
             Some (get_kinematic_mask (particle_type features)) |} ∧
    heap (rollout_step model features (Some (column xs)) st step w).1
    = heap w ++ [zip_with (λ r p, drop 1 r ++ [p])
                   (heap w !!! current_positions st) next].
Proof.
  intros Hsim Hstep. rewrite rollout_step_eq, context_step_column by done.
  simpl.
  destruct (Hsim (call_args features (heap w !!! current_positions st)
    (Some (row (take (step + W) xs
                ++ replicate (length xs - 1 - (step + W)) zero)))))
    as (y & -> & Hlen & Hne).
  unfold outcome_bind.
  destruct (select_first_returns y Hne) as (next & -> & Hnext). simpl in *.
  exists next. rewrite Hnext, Hlen, Nat.eqb_refl. simpl.
  by rewrite advance_rows.
Qed.

Lemma rollout_loop_returns model features (xs : list Scalar) steps st w n :
  well_shaped model →
  Forall (λ step, (step + W < length xs)%nat) steps →
  length (heap w !!! current_positions st) = n →
  Forall (λ p, length p = n) (updated_predictions st) →
  ∃ st' w',
    rollout_loop model features (Some (column xs)) steps st w
    = (w', Returned st') ∧
    Forall (λ p, length p = n) (updated_predictions st').
Proof.
  intros Hsim Hsteps. revert st w.
  induction Hsteps as [|step steps Hstep _ IH]; intros st w Hwin Hpreds.
  - by exists st, w.
  - rewrite rollout_loop_cons.
    destruct (rollout_step_returns model features xs st step w Hsim Hstep)
      as (next & Hnext & Hout & Hheap).
    destruct (rollout_step model features (Some (column xs)) st step w)
      as [w1 [st1|e]] eqn:E; simpl in Hout, Hheap; [|done].
    rewrite (bind_step _ _ _ _ _ E). injection Hout as ->.
    apply IH; simpl.
    + rewrite Hheap, lookup_total_app_r, Nat.sub_diag by done. simpl.
      rewrite length_zip_with. lia.
    + apply Forall_app. split; [done|]. constructor; [lia | done].
Qed.

(** With a well-shaped simulator, a context of shape [L, 1] longer than
    the window and an output path that is not empty, the rollout of an
    example returns. *)
Lemma rollout_example_returns model idx features (xs : list Scalar) w :
  well_shaped model → output_path C ≠ "" →
  step_context features = Some (column xs) → (W < length xs)%nat →
  ∃ w', rollout_example model idx features w = (w', Returned tt).
Proof.
  intros Hsim Hpath Hctx HL. rewrite rollout_example_eq, Hctx.
  destruct (rollout_loop_returns model features xs
    (range (shape0 (column xs) - Z.of_nat W)) (loop_init w)
    (loop_start features w) (length (slice_time W (position features))) Hsim)
    as (st & w1 & Hloop & Hpreds).
  - apply Forall_forall. intros step Hin%elem_of_range.
    unfold shape0, column in Hin. simpl in Hin. rewrite length_map in Hin. lia.
  - simpl. by rewrite lookup_total_app_r, Nat.sub_diag.
  - constructor.
  - rewrite Hloop.
    apply rollout_loop_trace in Hloop
      as (_ & new & _ & _ & _ & _ & _ & Hnew & _ & Ln & _).
    simpl in Hnew. rewrite Hnew in *. rewrite length_range in Ln.
    unfold shape0, column in Ln. simpl in Ln. rewrite length_map in Ln.
    destruct new as [|t new]; [simpl in Ln; lia|].
    unfold torch_stack.
    assert (forallb (λ u, (length u =? length t)%nat) new = true) as ->.
    { apply forallb_forall. intros u Hu%list_elem_of_In.
      apply Nat.eqb_eq. inversion Hpreds as [|? ? Ht Hall]; subst.
      rewrite Forall_forall in Hall. by rewrite (Hall u Hu). }
    rewrite (bool_decide_eq_false_2 _ Hpath). by eexists.
Qed.

(** * The properties of the rollout engine *)

(** C1.  At every step [step] of the loop over a context sequence [xs] of
    length [L], the simulator is called once, and the context it receives
    is the single row made of the first [step + W] values of [xs] followed
    by [L - 1 - (step + W)] zeros, of total length [L - 1]; at the last
    step there is no padding. *)
Theorem context_vector_is_padded_prefix model features (xs : list Scalar)
    st (step : nat) (w : World) :
  step ∈ range (shape0 (column xs) - Z.of_nat W) →
  let L := length xs in
  let pad := (L - 1 - (step + W))%nat in
  let vector := take (step + W) xs ++ replicate pad zero in
  context_step (Some (column xs)) step w = (w, Returned (Some (row vector))) ∧
  calls (rollout_step model features (Some (column xs)) st step w).1
  = calls w ++ [call_args features (heap w !!! current_positions st)
                  (Some (row vector))] ∧
  length (take (step + W) xs) = (step + W)%nat ∧
  length vector = (L - 1)%nat ∧
  (last (range (shape0 (column xs) - Z.of_nat W)) = Some step → pad = 0%nat).
Proof.
  intros Hin L pad vector.
  apply elem_of_range in Hin. unfold shape0, column in Hin; simpl in Hin.
  rewrite length_map in Hin.
  assert (Hlt : (step + W < length xs)%nat) by lia.
  pose proof (context_step_column xs step w Hlt) as Hctx.
  split; [exact Hctx|]. split; [|split; [|split]].
  - rewrite rollout_step_eq, Hctx; simpl.
    destruct (outcome_bind _ _) as [next|e]; [|done].
    by destruct (_ =? _)%nat.
  - rewrite length_take. lia.
  - unfold vector, pad. rewrite length_app, length_take, length_replicate.
    unfold L. lia.
  - unfold shape0, column; simpl. rewrite length_map.
    rewrite last_range by lia. intros [= <-]. unfold pad, L. lia.
Qed.



(** C3.  The rollout of an example whose context has [L] rows runs
    [L - W] steps, the number it derives at line 211: when it has
    returned, it has called the simulator [L - W] times and stored a
    trajectory of [L - W] snapshots, the [k]-th being the output selected
    from the call made at step [k], whatever [W] is; and [L] exceeds [W],
    since [torch.stack] needs a snapshot. *)
Theorem trajectory_length model idx features (gc : Tensor2 Scalar) w w' :
  step_context features = Some gc →
  rollout_example model idx features w = (w', Returned tt) →
  let L := length (rows gc) in
  ∃ newcalls preds,
    (W < L)%nat ∧
    calls w' = calls w ++ newcalls ∧
    length newcalls = (L - W)%nat ∧
    predicted_rollout_of w' (rollout_filename C idx)
    = Some (VPositions preds) ∧
    length preds = (L - W)%nat ∧
    ∀ k : nat, (k < L - W)%nat →
      ∃ window ctx y p,
        context_step (Some gc) k w = (w, Returned (Some ctx)) ∧
        newcalls !! k = Some (call_args features window (Some ctx)) ∧
        inference model (call_args features window (Some ctx)) = Returned y ∧
        select_first y = Returned p ∧
        preds !! k = Some p.
Proof.
  intros Hgc (gc' & st & w1 & Hgc' & Hloop & Hne & _ & ->)%rollout_example_returned
    L.
  rewrite Hgc in Hgc'. injection Hgc' as <-.
  apply rollout_loop_trace in Hloop
    as (ext & new & newcalls & _ & _ & _ & Hc & Hp & _ & Ln & Lc & Hi).
  simpl in Hc, Hp. subst new. rewrite length_range in Ln, Lc.
  unfold shape0 in Ln, Lc. fold L in Ln, Lc.
  exists newcalls, (updated_predictions st).
  assert (HL : (W < L)%nat).
  { destruct (updated_predictions st); [done | simpl in Ln; lia]. }
  split; [done|]. split; [done|]. split; [lia|].
  split; [apply predicted_rollout_of_rollout_op|]. split; [lia|].
  intros k Hk.
  destruct (Hi k k) as (window & ctx & y & p & H1 & H2 & H3 & H4 & H5).
  { unfold range, shape0. fold L. rewrite lookup_seq_lt by lia. done. }
  exists window, ctx, y, p. repeat split; try done.
  by apply (context_step_anywhere _ _ (loop_start features w)).
Qed.

(** C6.  A step that returns has computed the kinematic mask from the
    particle types and left it unused: the snapshot appended to the
    trajectory and placed last in the window is, for every particle
    whatever its type, the first position the simulator predicted. *)
Theorem kinematic_mask_not_applied model features gc st (step : nat) w st' w' :
  rollout_step model features gc st step w = (w', Returned st') →
  kinematic_mask st' = Some (get_kinematic_mask (particle_type features)) ∧
  ∃ args y next,
    last (calls w') = Some args ∧
    arg_particle_types args = particle_type features ∧
    inference model args = Returned y ∧
    length next = length y ∧
    (∀ i r, y !! i = Some r → next !! i = head r) ∧
    last (updated_predictions st') = Some next ∧
    Forall2 (λ r p, last r = Some p) (heap w' !!! current_positions st') next.
Proof.
  intros (ctx & y & next & _ & Hinf & Hsel & Hlen & -> & ->)%rollout_step_returned.
  simpl. split; [done|].
  destruct (select_first_returned _ _ Hsel) as [Hl Hi].
  eexists _, y, next. rewrite !last_snoc.
  repeat split; try done.
  rewrite lookup_total_app_r, Nat.sub_diag by done; simpl.
  rewrite advance_rows. by apply advance_last.
Qed.

(** The name of a record written out: the output path, a separator unless
    the path is empty or ends with one, then [rollout_], the split, [_],
    the example index in decimal and [.json]. *)
Lemma rollout_filename_format i :
  rollout_filename C i
  = (if bool_decide (output_path C = "") || ends_with_slash (output_path C)
     then output_path C else output_path C +:+ "/")
    +:+ "rollout_" +:+ eval_split C +:+ "_" +:+ pretty i +:+ ".json".
Proof.
  unfold rollout_filename.
  destruct (os_path_join_relative (output_path C)
    ("rollout_" +:+ eval_split C +:+ "_" +:+ pretty i +:+ ".json"))
    as (pre & -> & ->); done.
Qed.

(** C8.  Every example that has completed has its record in the output
    directory under the name [rollout_], split, [_], its 0-based position
    in the dataset, [.json], whatever the examples after it do; the record
    has exactly the five keys; names of distinct examples differ; no other
    file is written, a file already under a record's name is replaced, and
    the output directory exists afterwards. *)
Theorem one_record_per_example model done rest w st1 w1 :
  Inference model done w = (w1, Returned st1) →
  let w' := (Inference model (done ++ rest) w).1 in
  let directory :=
    if bool_decide (output_path C = "") || ends_with_slash (output_path C)
    then output_path C else output_path C +:+ "/" in
  let name (i : nat) :=
    directory +:+ "rollout_" +:+ eval_split C +:+ "_" +:+ pretty i
    +:+ ".json" in
  (∀ i, rollout_filename C i = name i) ∧
  (∀ i example, done !! i = Some example →
     ∃ record,
       files w' !! name i = Some record ∧
       dom record = {[ "initial_positions"; "predicted_rollout";
                       "particle_types"; "global_context"; "metadata" ]} ∧
       record !! "particle_types" = Some (VInts (particle_type example.1)) ∧
       record !! "metadata" = Some (VMetadata metadata)) ∧
  (∀ i j, name i = name j → i = j) ∧
  (∀ p, (∀ i, (i < length (done ++ rest))%nat → p ≠ name i) →
        files w' !! p = files w !! p) ∧
  (done ≠ [] → output_path C ∈ dirs w' ∨ output_path C ∈ dom (files w)).
Proof.
  intros Hdone w' directory name. unfold Inference in *.
  assert (Hname : ∀ i, rollout_filename C i = name i)
    by apply rollout_filename_format.
  destruct (Inference_records _ _ _ _ _ Hdone)
    as (Hidx & _ & Hrec & _ & Hout). simpl in *.
  assert (Hw' : w' = (for_each rest Inference_body st1 w1).1).
  { unfold w'. rewrite for_each_app. by rewrite (bind_step _ _ _ _ _ Hdone). }
  destruct (Inference_loop_frame rest st1 w1) as [Hd Hf].
  split; [done|]. split; [|split; [|split]].
  - intros i example Hi.
    destruct (Hrec i example Hi) as (gc & preds & _ & _ & Hl).
    destruct (lookup_rollout_op (slice_time W (position example.1)) preds
                (particle_type example.1) (rows gc)) as (_ & Ht & _ & Hm).
    eexists. rewrite <- Hname, Hw', Hf, Hl.
    + split; [done|]. split; [apply dom_rollout_op | done].
    + intros j Hj Heq%rollout_filename_inj.
      apply lookup_lt_Some in Hi. lia.
  - intros i j. rewrite <- !Hname. apply rollout_filename_inj.
  - intros p Hp. unfold w'.
    destruct (Inference_loop_frame (done ++ rest)
                {| loaded := false; model_of := model;
                   example_index_of := 0 |} w) as [_ Hall].
    apply Hall. simpl. intros j Hj. rewrite Hname. apply Hp. lia.
  - intros Hne. destruct (Hout Hne) as [Ho|Ho]; [left | by right].
    rewrite Hw'. by apply Hd.
Qed.

(** C10.  The record of an example stores as [initial_positions] the first
    [W] snapshots of its position sequence: the tensor object bound to
    [initial_positions] still holds them when the loop is over, and no
    tensor object that existed before the rollout has changed. *)
Theorem initial_positions_unchanged model idx features w w' :
  rollout_example model idx features w = (w', Returned tt) →
  (∃ record,
     files w' !! rollout_filename C idx = Some record ∧
     record !! "initial_positions"
     = Some (VPositions (slice_time W (position features)))) ∧
  heap w' !! length (heap w) = Some (slice_time W (position features)) ∧
  (∀ l t, heap w !! l = Some t → heap w' !! l = Some t).
Proof.
  intros (gc & st & w1 & _ & Hloop & _ & _ & ->)%rollout_example_returned.
  apply rollout_loop_trace in Hloop as (ext & _ & _ & Hh & _).
  simpl in *. rewrite Hh, <- app_assoc. split; [|split].
  - eexists. split; [apply lookup_insert_eq|].
    rewrite lookup_total_app_r, Nat.sub_diag by done. simpl.
    apply lookup_rollout_op.
  - by rewrite lookup_app_r, Nat.sub_diag.
  - intros l t Hl. rewrite lookup_app_l; [done|].
    by eapply lookup_lt_Some.
Qed.

(** C9.  Two rollouts of examples that agree on the first [W] snapshots,
    the topology, the particle types and the context, run with the same
    simulator in any two worlds and under any two example indices, end the
    same way, and when they return they have stored the same trajectory. *)
Theorem rollout_deterministic model i1 i2 f1 f2 w1 w2 :
  same_inputs f1 f2 →
  let r1 := rollout_example model i1 f1 w1 in
  let r2 := rollout_example model i2 f2 w2 in
  r1.2 = r2.2 ∧
  (r1.2 = Returned tt →
   ∃ preds,
     predicted_rollout_of r1.1 (rollout_filename C i1)
     = Some (VPositions preds) ∧
     predicted_rollout_of r2.1 (rollout_filename C i2)
     = Some (VPositions preds)).
Proof.
  intros Hin r1 r2. unfold r1, r2. rewrite !rollout_example_eq.
  pose proof Hin as (Hslice & _ & _ & _ & _ & Hty & Hctx).
  rewrite Hctx. destruct (step_context f2) as [gc|]; [|done].
  pose proof (rollout_loop_same model f1 f2 (Some gc)
    (range (shape0 gc - Z.of_nat W)) (loop_init w1) (loop_init w2)
    (loop_start f1 w1) (loop_start f2 w2) Hin) as Hsame.
  destruct (rollout_loop model f1 _ _ _ _) as [w1' [st1|e1]],
    (rollout_loop model f2 _ _ _ _) as [w2' [st2|e2]]; simpl in Hsame.
  - destruct Hsame as [_ ->].
    { split; simpl; [|done].
      by rewrite !lookup_total_app_r, !Nat.sub_diag by done. }
    destruct (torch_stack _) as [stacked|e]; simpl; [|done].
    case_bool_decide; simpl; [done|].
    split; [done|]. intros _. exists stacked.
    by rewrite !predicted_rollout_of_rollout_op.
  - destruct Hsame.
    split; simpl; [|done].
    by rewrite !lookup_total_app_r, !Nat.sub_diag by done.
  - destruct Hsame.
    split; simpl; [|done].
    by rewrite !lookup_total_app_r, !Nat.sub_diag by done.
  - rewrite Hsame; [done|].
    split; simpl; [|done].
    by rewrite !lookup_total_app_r, !Nat.sub_diag by done.
Qed.

(** C5 as the code has it.  When the body of the dataset loop raises on an
    example, after the examples before it completed, the run ends there
    with that exception whatever examples follow, in the world of the
    failure, and the files are those the completed examples left. *)
Theorem failure_ends_the_run model done example rest w st1 w1 w2 e :
  Inference model done w = (w1, Returned st1) →
  Inference_body st1 example w1 = (w2, Raised e) →
  Inference model (done ++ example :: rest) w = (w2, Raised e) ∧
  files w2 = files w1.
Proof.
  unfold Inference. intros Hdone Hfail. split.
  - rewrite for_each_app, (bind_step _ _ _ _ _ Hdone). simpl.
    by rewrite (bind_abort _ _ _ _ _ Hfail).
  - by eapply raising_keeps_files_Inference_body.
Qed.

(** * Further properties of the engine *)

(** ** Examples the loop cannot roll out *)

Lemma range_nonpositive n : n ≤ 0 → range n = [].
Proof. intros Hn. unfold range. by replace (Z.to_nat n) with 0%nat by lia. Qed.

Lemma range_positive n : 0 < n → range n = 0%nat :: seq 1 (Z.to_nat n - 1).
Proof.
  intros Hn. unfold range.
  destruct (Z.to_nat n) as [|k] eqn:E; [lia|].
  simpl. by rewrite Nat.sub_0_r.
Qed.

(** The body of the dataset loop, once the checkpoint is loaded, is the
    rollout of the example. *)
Lemma Inference_body_loaded st example w w' e :
  loaded st = true →
  rollout_example (model_of st) (example_index_of st) example.1 w
  = (w', Raised e) →
  Inference_body st example w = (w', Raised e).
Proof.
  intros Hl Hr. unfold Inference_body. rewrite Hl.
  rewrite (bind_step _ _ w w (model_of st)) by done.
  by rewrite (bind_abort _ _ _ _ _ Hr).
Qed.

Lemma rollout_example_short model idx features (gc : Tensor2 Scalar) w :
  step_context features = Some gc →
  (length (rows gc) ≤ W)%nat →
  rollout_example model idx features w
  = (loop_start features w, Raised RuntimeError).
Proof.
  intros Hgc Hlen. rewrite rollout_example_eq, Hgc.
  by rewrite range_nonpositive by (unfold shape0; lia).
Qed.

(** A context no longer than the window leaves nothing to predict: the
    rollout of the example runs no step and [torch.stack] raises on the
    empty list, the rollout having made no simulator call, written no file
    and created no directory.  So does the whole iteration of the dataset
    loop on such an example once the checkpoint is loaded. *)
Theorem short_context_raises model idx features (gc : Tensor2 Scalar) w :
  step_context features = Some gc →
  (length (rows gc) ≤ W)%nat →
  (∃ w', rollout_example model idx features w = (w', Raised RuntimeError) ∧
         calls w' = calls w ∧ files w' = files w ∧ dirs w' = dirs w) ∧
  (∀ st (targets : Targets), loaded st = true →
     ∃ w', Inference_body st (features, targets) w
           = (w', Raised RuntimeError) ∧
           calls w' = calls w ∧ files w' = files w ∧ dirs w' = dirs w).
Proof.
  intros Hgc Hlen. split.
  - rewrite (rollout_example_short _ _ _ gc) by done. by eexists.
  - intros st targets Hl. eexists. split.
    + apply Inference_body_loaded; [done|]. simpl.
      by apply (rollout_example_short _ _ _ gc).
    + done.
Qed.

Lemma context_step_wide (gc : Tensor2 Scalar) (step : nat) w :
  ncols gc ≠ 1%nat → (step + W < length (rows gc))%nat →
  context_step (Some gc) step w = (w, Raised RuntimeError).
Proof.
  intros Hc Hlen. unfold context_step.
  unfold mbind, Py_bind, lift, mret, Py_ret.
  rewrite shape0_read_step_context. unfold torch_zeros.
  destruct (Z.ltb_spec
    (shape0 gc - Z.min (Z.of_nat step + Z.of_nat W) (shape0 gc) - 1) 0)
    as [Hneg|_]; [unfold shape0 in Hneg; lia|].
  unfold torch_cat0. simpl.
  by destruct (Nat.eqb_spec (ncols gc) 1).
Qed.

Lemma rollout_example_wide model idx features (gc : Tensor2 Scalar) w :
  step_context features = Some gc →
  ncols gc ≠ 1%nat → (W < length (rows gc))%nat →
  rollout_example model idx features w
  = (loop_start features w, Raised RuntimeError).
Proof.
  intros Hgc Hc Hlen. rewrite rollout_example_eq, Hgc.
  rewrite range_positive by (unfold shape0; lia).
  rewrite rollout_loop_cons, (bind_abort _ _ _ (loop_start features w)
                                RuntimeError); [done|].
  rewrite rollout_step_eq, context_step_wide by (simpl; lia). done.
Qed.

(** A context with more than one value per step (or none) cannot be
    padded with the one-column zeros: the first step of the rollout raises
    at [torch.cat] before the loop has called the simulator, and the
    rollout writes nothing.  So does the whole iteration of the dataset
    loop on such an example once the checkpoint is loaded. *)
Theorem wide_context_raises model idx features (gc : Tensor2 Scalar) w :
  step_context features = Some gc →
  ncols gc ≠ 1%nat → (W < length (rows gc))%nat →
  (∃ w', rollout_example model idx features w = (w', Raised RuntimeError) ∧
         calls w' = calls w ∧ files w' = files w ∧ dirs w' = dirs w) ∧
  (∀ st (targets : Targets), loaded st = true →
     ∃ w', Inference_body st (features, targets) w
           = (w', Raised RuntimeError) ∧
           calls w' = calls w ∧ files w' = files w ∧ dirs w' = dirs w).
Proof.
  intros Hgc Hc Hlen. split.
  - rewrite (rollout_example_wide _ _ _ gc) by done. by eexists.
  - intros st targets Hl. eexists. split.
    + apply Inference_body_loaded; [done|]. simpl.
      by apply (rollout_example_wide _ _ _ gc).
    + done.
Qed.

(** ** Simulator outputs the loop rejects *)

Lemma select_first_empty_row (y : list (list Pos)) :
  [] ∈ y → select_first y = Raised IndexError.
Proof.
  induction y as [|r y IH]; intros Hin; [by apply not_elem_of_nil in Hin|].
  simpl. destruct r as [|q r]; [done|].
  apply elem_of_cons in Hin as [?|Hin]; [done|]. by rewrite IH.
Qed.

(** When the simulator predicts for a number of particles other than
    that of the window, the step raises at [torch.cat]: the call has been
    made, but no tensor object is created and the window is not
    advanced. *)
Theorem particle_count_mismatch_raises model features gc st (step : nat) w
    ctx y next :
  context_step gc step w = (w, Returned (Some ctx)) →
  inference model
    (call_args features (heap w !!! current_positions st) (Some ctx))
  = Returned y →
  select_first y = Returned next →
  length next ≠ length (heap w !!! current_positions st) →
  rollout_step model features gc st step w
  = ({| heap := heap w; dirs := dirs w; files := files w;
        calls := calls w ++
          [call_args features (heap w !!! current_positions st) (Some ctx)] |},
     Raised RuntimeError).
Proof.
  intros Hctx Hinf Hsel Hne. rewrite rollout_step_eq, Hctx. simpl.
  rewrite Hinf. simpl. rewrite Hsel.
  by destruct (Nat.eqb_spec (length (heap w !!! current_positions st))
                 (length next)).
Qed.

(** When the simulator returns no prediction for some particle, taking
    index 0 raises [IndexError] after the call, and the window is not
    advanced. *)
Theorem empty_prediction_raises model features gc st (step : nat) w ctx y :
  context_step gc step w = (w, Returned (Some ctx)) →
  inference model
    (call_args features (heap w !!! current_positions st) (Some ctx))
  = Returned y →
  [] ∈ y →
  rollout_step model features gc st step w
  = ({| heap := heap w; dirs := dirs w; files := files w;
        calls := calls w ++
          [call_args features (heap w !!! current_positions st) (Some ctx)] |},
     Raised IndexError).
Proof.
  intros Hctx Hinf Hin. rewrite rollout_step_eq, Hctx. simpl.
  rewrite Hinf. simpl. by rewrite select_first_empty_row.
Qed.

(** ** The first iteration *)

(** The first iteration written out by cases. *)
Lemma load_model_eq model features w :
  load_model model features w =
  match step_context features with
  | None => (w, Raised AttributeError)
  | Some gc =>
      ({| heap := heap w; dirs := dirs w; files := files w;
          calls := calls w ++ [warmup_args features gc] |},
       outcome_bind (inference model (warmup_args features gc))
         (λ _, load_state_dict model))
  end.
Proof.
  unfold load_model. destruct (step_context features) as [gc|]; [|done].
  unfold mbind, Py_bind, to_device, mret, Py_ret, model_inference, lift,
    warmup_args, call_args.
  simpl. by destruct (inference _ _).
Qed.

Lemma Inference_cons model example rest w :
  Inference model (example :: rest) w =
  (Inference_body {| loaded := false; model_of := model;
                     example_index_of := 0 |} example
     ≫= for_each rest Inference_body) w.
Proof. done. Qed.

(** When the call made before loading raises, or the checkpoint cannot be
    loaded, the run ends with that exception after this single simulator
    call: no example is rolled out and nothing is written. *)
Theorem first_iteration_failure model example rest w (gc : Tensor2 Scalar) e :
  step_context example.1 = Some gc →
  outcome_bind (inference model (warmup_args example.1 gc))
    (λ _, load_state_dict model) = Raised e →
  Inference model (example :: rest) w
  = ({| heap := heap w; dirs := dirs w; files := files w;
        calls := calls w ++ [warmup_args example.1 gc] |}, Raised e).
Proof.
  intros Hgc Hfail. rewrite Inference_cons.
  erewrite bind_abort; [done|].
  unfold Inference_body. simpl.
  erewrite bind_abort; [done|].
  by rewrite load_model_eq, Hgc, Hfail.
Qed.

Lemma slice_rows_all_but_last (xs : list Scalar) :
  reshape_row (slice_rows (-1) (column xs)) = row (take (length xs - 1) xs).
Proof.
  unfold reshape_row, slice_rows, row, column, slice_stop. simpl.
  rewrite length_map.
  replace (Z.to_nat (Z.of_nat (length xs) + -1)) with (length xs - 1)%nat
    by lia.
  by rewrite firstn_map, concat_singletons.
Qed.

(** The context of the call made before loading is the context sequence
    without its last value, in one row of length [L - 1]: what the last
    step of the rollout presents, so that the simulator sees contexts of
    one length throughout. *)
Theorem warmup_context_is_final_context model features (xs : list Scalar) w :
  step_context features = Some (column xs) →
  (W < length xs)%nat →
  calls (load_model model features w).1
  = calls w ++ [call_args features (slice_time W (position features))
                  (Some (row (take (length xs - 1) xs)))] ∧
  context_step (Some (column xs)) (length xs - W - 1) w
  = (w, Returned (Some (row (take (length xs - 1) xs)))) ∧
  length (take (length xs - 1) xs) = (length xs - 1)%nat.
Proof.
  intros Hgc HL. split; [|split].
  - rewrite load_model_eq, Hgc. simpl. unfold warmup_args.
    by rewrite slice_rows_all_but_last.
  - rewrite context_step_column by lia.
    replace (length xs - W - 1 + W)%nat with (length xs - 1)%nat by lia.
    rewrite Nat.sub_diag. simpl. by rewrite app_nil_r.
  - rewrite length_take. lia.
Qed.

(** What the body of the dataset loop does to the model and the index. *)
Lemma Inference_body_model st example w st' w' :
  Inference_body st example w = (w', Returned st') →
  (if loaded st then model_of st' = model_of st
   else load_state_dict (model_of st) = Returned (model_of st')) ∧
  loaded st' = true ∧
  example_index_of st' = S (example_index_of st) ∧
  length (calls w')
  = (length (calls w) + (if loaded st then 0 else 1) + steps_of example)%nat.
Proof.
  unfold Inference_body. intros H.
  apply bind_returned in H as (model & w0 & Hm & H).
  apply bind_returned in H as ([] & w1 & Hr & H).
  unfold mret, Py_ret in H. injection H as <- <-. simpl.
  apply rollout_example_returned in Hr
    as (gc & st1 & w2 & Hgc & Hloop & _ & _ & ->). simpl.
  apply rollout_loop_trace in Hloop
    as (_ & _ & newcalls & _ & _ & _ & Hc & _ & _ & _ & Lc & _).
  simpl in Hc. rewrite length_range in Lc.
  assert (Hsteps : steps_of example = length newcalls).
  { unfold steps_of. by rewrite Hgc, Lc. }
  rewrite Hc, length_app, Hsteps.
  destruct (loaded st).
  - unfold mret, Py_ret in Hm. injection Hm as <- <-.
    repeat split; try done. lia.
  - rewrite load_model_eq, Hgc in Hm. injection Hm as <- Hm.
    destruct (inference _ _) as [y|e]; simpl in Hm; [|done].
    repeat split; try done. simpl. rewrite length_app. simpl. lia.
Qed.

Lemma Inference_loop_model dataset st w st' w' :
  loaded st = true →
  for_each dataset Inference_body st w = (w', Returned st') →
  model_of st' = model_of st ∧ loaded st' = true ∧
  example_index_of st' = (example_index_of st + length dataset)%nat ∧
  length (calls w')
  = (length (calls w) + sum_list (steps_of <$> dataset))%nat.
Proof.
  revert st w. induction dataset as [|ex dataset IH]; intros st w Hl H.
  - simpl in H. unfold mret, Py_ret in H. simplify_eq.
    repeat split; try done; simpl; lia.
  - simpl in H. apply bind_returned in H as (st1 & w1 & Hb & H).
    apply Inference_body_model in Hb as (Hm & Hl1 & Hi & Hc).
    rewrite Hl in Hm, Hc.
    apply IH in H as (Hm' & Hl' & Hi' & Hc'); [|done].
    rewrite Hm', Hm, Hi', Hi, Hc', Hc, fmap_cons.
    repeat split; try done; simpl; lia.
Qed.


(** A run that returns has called the simulator once before loading the
    checkpoint and then once per rollout step of every example. *)
Theorem simulator_call_count model dataset w st' w' :
  Inference model dataset w = (w', Returned st') →
  length (calls w')
  = (length (calls w) + (match dataset with [] => 0 | _ => 1 end)
     + sum_list (steps_of <$> dataset))%nat.
Proof.
  destruct dataset as [|example rest].
  - unfold Inference. simpl. unfold mret, Py_ret. intros [= <- <-].
    simpl. lia.
  - rewrite Inference_cons. intros (st1 & w1 & Hb & H)%bind_returned.
    apply Inference_body_model in Hb as (_ & Hl & _ & Hc). simpl in Hc.
    apply Inference_loop_model in H as (_ & _ & _ & Hc'); [|done].
    rewrite Hc', Hc, fmap_cons. simpl. lia.
Qed.

(** ** The shape of what is stored and of what the simulator is given *)

Lemma rollout_loop_particle_count model features gc steps st w st' w' n :
  length (heap w !!! current_positions st) = n →
  Forall (λ p, length p = n) (updated_predictions st) →
  rollout_loop model features gc steps st w = (w', Returned st') →
  length (heap w' !!! current_positions st') = n ∧
  Forall (λ p, length p = n) (updated_predictions st').
Proof.
  revert st w. induction steps as [|step steps IH]; intros st w Hn Hp H.
  - unfold rollout_loop in H; simpl in H.
    unfold mret, Py_ret in H. by simplify_eq.
  - rewrite rollout_loop_cons in H.
    apply bind_returned in H as (st1 & w1 & Hstep & H).
    apply rollout_step_returned in Hstep
      as (ctx & y & next & _ & _ & _ & Hlen & -> & ->).
    apply IH in H; [done| |]; simpl.
    + rewrite lookup_total_app_r, Nat.sub_diag by done. simpl.
      rewrite advance_rows, length_zip_with. lia.
    + apply Forall_app. split; [done|]. constructor; [lia | done].
Qed.

Lemma rollout_loop_call_shapes model features gc steps st w st' w' n :
  (0 < W)%nat →
  length (heap w !!! current_positions st) = n →
  Forall (λ r, length r = W) (heap w !!! current_positions st) →
  rollout_loop model features gc steps st w = (w', Returned st') →
  ∃ newcalls, calls w' = calls w ++ newcalls ∧
              Forall (window_shape n) newcalls.
Proof.
  intros HW. revert st w.
  induction steps as [|step steps IH]; intros st w Hn Hrows H.
  - unfold rollout_loop in H; simpl in H.
    unfold mret, Py_ret in H. simplify_eq.
    exists []. by rewrite app_nil_r.
  - rewrite rollout_loop_cons in H.
    apply bind_returned in H as (st1 & w1 & Hstep & H).
    apply rollout_step_returned in Hstep
      as (ctx & y & next & _ & _ & _ & Hlen & -> & ->).
    apply IH in H as (newcalls & Hc & Hall); simpl.
    + simpl in Hc. eexists (_ :: newcalls).
      rewrite Hc, <- app_assoc. split; [done|].
      constructor; [|done]. by split.
    + rewrite lookup_total_app_r, Nat.sub_diag by done. simpl.
      rewrite advance_rows, length_zip_with. lia.
    + rewrite lookup_total_app_r, Nat.sub_diag by done. simpl.
      rewrite advance_rows. by apply advance_length.
Qed.

Lemma lookup_rollout_op_rollout ip preds types ctx :
  rollout_op ip preds types ctx !! "predicted_rollout"
  = Some (VPositions preds).
Proof.
  unfold rollout_op. repeat (rewrite lookup_insert_ne by done).
  apply lookup_insert_eq.
Qed.

(** The record of an example stores its whole context, unpadded, and a
    trajectory whose snapshots all have one position per particle of the
    example. *)
Theorem stored_record_shape model idx features w w' :
  rollout_example model idx features w = (w', Returned tt) →
  ∃ (gc : Tensor2 Scalar) preds record,
    step_context features = Some gc ∧
    files w' !! rollout_filename C idx = Some record ∧
    record !! "global_context" = Some (VScalars (rows gc)) ∧
    record !! "predicted_rollout" = Some (VPositions preds) ∧
    Forall (λ p, length p = length (position features)) preds.
Proof.
  intros (gc & st & w1 & Hgc & Hloop & _ & _ & ->)%rollout_example_returned.
  apply (rollout_loop_particle_count _ _ _ _ _ _ _ _
           (length (position features))) in Hloop as [_ Hpreds].
  - exists gc, (updated_predictions st). eexists. simpl.
    split; [done|]. split; [apply lookup_insert_eq|].
    split; [apply lookup_rollout_op|].
    split; [apply lookup_rollout_op_rollout | done].
  - simpl. rewrite lookup_total_app_r, Nat.sub_diag by done. simpl.
    unfold slice_time. by rewrite length_map.
  - constructor.
Qed.

(** In a rollout that returns, every call gives the simulator a position
    tensor of one shape: the particles of the example, with exactly [W]
    snapshots for each. *)
Theorem simulator_input_shape model idx features w w' :
  (0 < W)%nat →
  Forall (λ r, (W ≤ length r)%nat) (position features) →
  rollout_example model idx features w = (w', Returned tt) →
  ∃ newcalls,
    calls w' = calls w ++ newcalls ∧
    Forall (window_shape (length (position features))) newcalls.
Proof.
  intros HW Hpos
    (gc & st & w1 & Hgc & Hloop & _ & _ & ->)%rollout_example_returned.
  apply (rollout_loop_call_shapes _ _ _ _ _ _ _ _
           (length (position features)) HW) in Hloop; [done| |].
  - simpl. rewrite lookup_total_app_r, Nat.sub_diag by done. simpl.
    unfold slice_time. by rewrite length_map.
  - simpl. rewrite lookup_total_app_r, Nat.sub_diag by done. simpl.
    by apply initial_window_length.
Qed.

(** ** What no run does *)

Lemma extends_calls_keeps {A} P (m : Py A) :
  (∀ w, calls (m w).1 = calls w) → extends_calls P m.
Proof. intros Hm w. exists []. by rewrite Hm, app_nil_r. Qed.

Lemma extends_calls_bind {A B} P (m : Py A) (k : A → Py B) :
  extends_calls P m → (∀ x, extends_calls P (k x)) →
  extends_calls P (m ≫= k).
Proof.
  intros Hm Hk w. unfold mbind, Py_bind.
  destruct (Hm w) as (new & Hc & Hall).
  destruct (m w) as [w1 [x|e]]; simpl in *; [|by exists new].
  destruct (Hk x w1) as (new' & Hc' & Hall').
  exists (new ++ new'). rewrite Hc', Hc, app_assoc. split; [done|].
  by apply Forall_app.
Qed.

Lemma extends_calls_for_each {X S} P (xs : list X) (body : S → X → Py S) s :
  (∀ s x, extends_calls P (body s x)) → extends_calls P (for_each xs body s).
Proof.
  intros Hb. revert s. induction xs as [|x xs IH]; intros s; simpl.
  - by apply extends_calls_keeps.
  - apply extends_calls_bind; [apply Hb | apply IH].
Qed.

Lemma call_ok_call_args features window (ctx : Tensor2 Scalar) :
  call_ok (call_args features window (Some ctx)).
Proof. split; [by eexists | done]. Qed.

Lemma extends_calls_rollout_step model features gc st step :
  extends_calls call_ok (rollout_step model features gc st step).
Proof.
  intros w. rewrite rollout_step_eq.
  destruct (context_step gc step w).2 as [[ctx|]|e]; simpl;
    try (exists []; by rewrite app_nil_r).
  exists [call_args features (heap w !!! current_positions st) (Some ctx)].
  split; [|by repeat constructor; apply call_ok_call_args].
  destruct (outcome_bind _ _) as [next|e]; simpl; [|done].
  by destruct (_ =? _)%nat.
Qed.

Lemma extends_calls_rollout_example model idx features :
  extends_calls call_ok (rollout_example model idx features).
Proof.
  intros w. rewrite rollout_example_eq.
  destruct (step_context features) as [gc|];
    [|exists []; by rewrite app_nil_r].
  destruct (extends_calls_for_each call_ok
              (range (shape0 gc - Z.of_nat W))
              (rollout_step model features (Some gc)) (loop_init w)
              (extends_calls_rollout_step model features (Some gc))
              (loop_start features w)) as (new & Hc & Hall).
  fold (rollout_loop model features (Some gc)
          (range (shape0 gc - Z.of_nat W)) (loop_init w)) in Hc.
  exists new. split; [|done].
  destruct (rollout_loop _ _ _ _ _ _) as [w1 [st|e]]; simpl in *; [|done].
  destruct (torch_stack _); [|done]. by case_bool_decide.
Qed.

Lemma extends_calls_Inference_body st example :
  extends_calls call_ok (Inference_body st example).
Proof.
  unfold Inference_body. apply extends_calls_bind.
  - destruct (loaded st); [by apply extends_calls_keeps|].
    intros w. rewrite load_model_eq.
    destruct (step_context example.1) as [gc|]; simpl.
    + eexists [_]. split; [done|].
      repeat constructor. apply call_ok_call_args.
    + exists []. by rewrite app_nil_r.
  - intros model. apply extends_calls_bind.
    + apply extends_calls_rollout_example.
    + intros _. by apply extends_calls_keeps.
Qed.

(** Whatever the dataset and however the run ends, the simulator is never
    called without a context, and always to predict [PREDICT_LENGTH]
    steps; the calls made before the run stay in the trace. *)
Theorem no_call_without_context model dataset w :
  ∃ new,
    calls (Inference model dataset w).1 = calls w ++ new ∧
    Forall call_ok new.
Proof.
  apply (extends_calls_for_each call_ok dataset Inference_body).
  apply extends_calls_Inference_body.
Qed.

Lemma parents_from_prefix prefix last_sep rest q :
  q ∈ parents_from prefix last_sep rest →
  ∃ r, prefix +:+ rest = q +:+ "/" +:+ r.
Proof.
  revert prefix last_sep.
  induction rest as [|c rest IH]; intros prefix last_sep Hq; simpl in Hq.
  - by apply not_elem_of_nil in Hq.
  - apply elem_of_app in Hq as [Hq|Hq].
    + destruct (decide (c = "/"%char)) as [->|Hc].
      * destruct last_sep; simpl in Hq; [by apply not_elem_of_nil in Hq|].
        apply list_elem_of_singleton in Hq as ->. by exists rest.
      * rewrite (bool_decide_eq_false_2 _ Hc) in Hq. simpl in Hq.
        by apply not_elem_of_nil in Hq.
    + apply IH in Hq as (r & Hr). exists r.
      by rewrite <- Hr, append_assoc.
Qed.

(** A directory that [os.makedirs(output_path)] can create: the output
    directory or one on the way to it. *)
Lemma makedirs_creates d :
  d ∈ ({[output_path C]} ∪ list_to_set (parent_directories (output_path C))
       : gset string) →
  d = output_path C ∨ ∃ rest, output_path C = d +:+ "/" +:+ rest.
Proof.
  intros [Hd|Hd]%elem_of_union.
  - left. by apply elem_of_singleton in Hd.
  - right. apply elem_of_list_to_set in Hd.
    by apply parents_from_prefix in Hd.
Qed.

Lemma rollout_example_dirs model idx features w :
  dirs (rollout_example model idx features w).1
  ⊆ {[output_path C]} ∪ list_to_set (parent_directories (output_path C))
    ∪ dirs w ∧
  (output_path C ∈ dirs w →
   dirs (rollout_example model idx features w).1 = dirs w).
Proof.
  rewrite rollout_example_eq.
  destruct (step_context features) as [gc|];
    [|split; [apply union_subseteq_r | done]].
  destruct (keeps_files_rollout_loop model features (Some gc)
              (range (shape0 gc - Z.of_nat W)) (loop_init w)
              (loop_start features w)) as [_ Hd].
  destruct (rollout_loop _ _ _ _ _ _) as [w1 [st|e]]; simpl in *;
    [|rewrite Hd; split; [apply union_subseteq_r | done]].
  destruct (torch_stack _) as [stacked|e]; simpl;
    [|rewrite Hd; split; [apply union_subseteq_r | done]].
  case_bool_decide; simpl;
    [rewrite Hd; split; [apply union_subseteq_r | done]|].
  rewrite Hd. split.
  - case_bool_decide; [apply union_subseteq_r | done].
  - intros Hout. rewrite bool_decide_eq_true_2; [done | by left].
Qed.

Lemma Inference_body_dirs st example w :
  dirs (Inference_body st example w).1
  ⊆ {[output_path C]} ∪ list_to_set (parent_directories (output_path C))
    ∪ dirs w ∧
  (output_path C ∈ dirs w → dirs (Inference_body st example w).1 = dirs w).
Proof.
  unfold Inference_body, mbind, Py_bind.
  destruct (loaded st).
  - unfold mret, Py_ret.
    pose proof (rollout_example_dirs (model_of st) (example_index_of st)
                  example.1 w) as Hd.
    destruct (rollout_example _ _ _ w) as [w1 [[]|e]]; exact Hd.
  - destruct (keeps_files_load_model (model_of st) example.1 w) as [_ Hd0].
    destruct (load_model (model_of st) example.1 w) as [w0 [model|e]];
      simpl in *; [|rewrite Hd0; split; [apply union_subseteq_r | done]].
    pose proof (rollout_example_dirs model (example_index_of st)
                  example.1 w0) as Hd.
    rewrite Hd0 in Hd. unfold mret, Py_ret.
    destruct (rollout_example _ _ _ w0) as [w1 [[]|e]]; exact Hd.
Qed.

Lemma Inference_loop_dirs dataset st w :
  dirs (for_each dataset Inference_body st w).1
  ⊆ {[output_path C]} ∪ list_to_set (parent_directories (output_path C))
    ∪ dirs w ∧
  (output_path C ∈ dirs w →
   dirs (for_each dataset Inference_body st w).1 = dirs w).
Proof.
  revert st w. induction dataset as [|ex dataset IH]; intros st w.
  - split; [apply union_subseteq_r | done].
  - simpl. unfold mbind, Py_bind.
    destruct (Inference_body_dirs st ex w) as [Hb Hb'].
    destruct (Inference_body st ex w) as [w1 [st1|e]]; simpl in *; [|done].
    destruct (IH st1 w1) as [Hl Hl']. split.
    + etrans; [apply Hl|].
      apply union_least; [apply union_subseteq_l | done].
    + intros Hout. rewrite Hl'; rewrite (Hb' Hout); done.
Qed.

(** The only directories a run can create are the output directory and
    the directories on the way to it: the directories that existed stay,
    every other one is [output_path] or a part of it that ends before a
    separator, and when [output_path] exists already the directories do
    not change. *)
Theorem only_output_directory_created model dataset w :
  let w' := (Inference model dataset w).1 in
  dirs w ⊆ dirs w' ∧
  (∀ d, d ∈ dirs w' →
        d ∈ dirs w ∨ d = output_path C
        ∨ ∃ rest, output_path C = d +:+ "/" +:+ rest) ∧
  (output_path C ∈ dirs w → dirs w' = dirs w).
Proof.
  intros w'. unfold w', Inference.
  destruct (Inference_loop_frame dataset
              {| loaded := false; model_of := model; example_index_of := 0 |}
              w) as [Hlow _].
  destruct (Inference_loop_dirs dataset
              {| loaded := false; model_of := model; example_index_of := 0 |}
              w) as [Hup Hsame].
  split; [done|]. split; [|done].
  intros d Hd%Hup. apply elem_of_union in Hd as [Hd|Hd]; [|by left].
  right. by apply makedirs_creates.
Qed.
End Engine.

(** * The class [Stats] (lines 69-82)

    Objects of the class live in a store, addressed by identity, since
    [to] assigns to the attributes of [self] and returns [self].  The
    tensors held and their method [to] belong to torch: [tensor_to device
    t] is [t.to(device)], which returns a tensor or raises, as it does on
    a device that is not available. *)

Section StatsObjects.
Context {Device Tensor : Type}.
Variable tensor_to : Device → Tensor → Outcome Tensor.

Record Stats := { mean : Tensor; std : Tensor }.

(** [Stats.__init__(self, mean, std)] *)
Definition Stats_init (self : nat) (mean0 std0 : Tensor) (store : nat → Stats)
  : nat → Stats :=
  let store1 := <[self := {| mean := mean0; std := std (store self) |}]> store in
  <[self := {| mean := mean (store1 self); std := std0 |}]> store1.

(** [Stats.to(self, device)]: two assignments, then [return self]. *)
Definition Stats_to (self : nat) (device : Device) (store : nat → Stats)
  : (nat → Stats) * Outcome nat :=
  match tensor_to device (mean (store self)) with
  | Raised e => (store, Raised e)
  | Returned moved_mean =>
      let store1 :=
        <[self := {| mean := moved_mean; std := std (store self) |}]> store in
      match tensor_to device (std (store1 self)) with
      | Raised e => (store1, Raised e)
      | Returned moved_std =>
          (<[self := {| mean := mean (store1 self); std := moved_std |}]>
             store1,
           Returned self)
      end
  end.

(** [Stats.to] works in place and is not atomic.  No other object ever
    changes.  When both transfers return, the call returns the object it
    was called on, holding the two tensors [to] gave back.  When the
    transfer of the mean raises the object is unchanged, but when that of
    the standard deviation raises the object keeps the mean already moved
    next to the standard deviation not moved. *)
Theorem Stats_to_in_place (self : nat) (device : Device) (store : nat → Stats) :
  let after := Stats_to self device store in
  (∀ l, l ≠ self → after.1 l = store l) ∧
  match tensor_to device (mean (store self)),
        tensor_to device (std (store self)) with
  | Returned moved_mean, Returned moved_std =>
      after.2 = Returned self ∧
      after.1 self = {| mean := moved_mean; std := moved_std |}
  | Returned moved_mean, Raised e =>
      after.2 = Raised e ∧
      after.1 self = {| mean := moved_mean; std := std (store self) |}
  | Raised e, _ =>
      after.2 = Raised e ∧ after.1 self = store self
  end.
Proof.
  intros after. unfold after, Stats_to. split.
  - intros l Hl.
    destruct (tensor_to device (mean (store self))) as [m|e]; [|done].
    rewrite fn_lookup_insert. simpl.
    destruct (tensor_to device (std (store self))) as [d|e]; simpl;
      by rewrite ?fn_lookup_insert_ne by done.
  - destruct (tensor_to device (mean (store self))) as [m|e]; [|done].
    rewrite fn_lookup_insert. simpl.
    destruct (tensor_to device (std (store self))) as [d|e]; simpl;
      by rewrite !fn_lookup_insert.
Qed.
End StatsObjects.

(** * A concrete run

    The engine on two particles in one dimension, a window of
    [INPUT_SEQUENCE_LENGTH = 5] snapshots and a context of length 8, hence
    three steps.  The simulator moves every particle one unit past its
    latest position, and raises on particle type 9. *)

Definition scenario_inference (model : bool) (args : @InferenceArgs Z Z)
  : Outcome (list (list Z)) :=
  if bool_decide (9 ∈ arg_particle_types args) then Raised (SimulatorError 1)
  else Returned (map (λ r, [default 0 (last r) + 1]) (arg_position_sequence args)).

Definition scenario_load (model : bool) : Outcome bool := Returned true.

Definition scenario_mask (types : list Z) : list bool :=
  map (Z.eqb KINEMATIC_PARTICLE_ID) types.

Definition scenario_constants : Constants :=
  {| eval_split := "test"; output_path := "out" |}.

Definition scenario_context : list Z := [100; 101; 102; 103; 104; 105; 106; 107].

Definition scenario_features (tail : list Z) (types : list Z)
    (ctx : option (Tensor2 Z)) : @Features Z Z :=
  {| position := [[0; 1; 2; 3; 4] ++ tail; [10; 11; 12; 13; 14] ++ tail];
     n_particles_per_example := [2]; n_edges_per_example := [2];
     senders := [0; 1]; receivers := [1; 0];
     particle_type := types; step_context := ctx |}.

Definition good_example : @Features Z Z * unit :=
  (scenario_features [5; 6; 7] [0; 2] (Some (column scenario_context)), tt).
Definition failing_example : @Features Z Z * unit :=
  (scenario_features [5; 6; 7] [9; 9] (Some (column scenario_context)), tt).
Definition contextless_example : @Features Z Z * unit :=
  (scenario_features [5; 6; 7] [0; 2] None, tt).
Definition other_example : @Features Z Z * unit :=
  (scenario_features [5; 6; 7] [2; 2] (Some (column scenario_context)), tt).


Definition empty_world : @World Z Z string :=
  {| heap := []; dirs := ∅; files := ∅; calls := [] |}.

Definition scenario_step :=
  rollout_step (Metadata := string) 0 INPUT_SEQUENCE_LENGTH scenario_inference scenario_mask false.
Definition scenario_example :=
  rollout_example 0 INPUT_SEQUENCE_LENGTH scenario_constants "meta"%string
    scenario_inference scenario_mask false.
Definition scenario_run (dataset : list (@Features Z Z * unit))
  : @World Z Z string * Outcome (@InferenceState bool) :=
  Inference 0 INPUT_SEQUENCE_LENGTH scenario_constants "meta"%string
    scenario_inference scenario_load scenario_mask false dataset empty_world.

Lemma context_vector_is_padded_prefix_witness :
  (0%nat ∈ range (shape0 (column scenario_context)
                  - Z.of_nat INPUT_SEQUENCE_LENGTH)) ∧
  context_step 0 INPUT_SEQUENCE_LENGTH (Some (column scenario_context))
    0 empty_world
  = (empty_world, Returned (Some (row [100; 101; 102; 103; 104; 0; 0]))).
Proof.
  assert (Hin : 0%nat ∈ range (shape0 (column scenario_context)
                               - Z.of_nat INPUT_SEQUENCE_LENGTH)).
  { apply elem_of_range. reflexivity. }
  split; [exact Hin|].
  exact (proj1 (context_vector_is_padded_prefix 0 INPUT_SEQUENCE_LENGTH
    scenario_inference scenario_mask false good_example.1 scenario_context
    (loop_init empty_world) 0 empty_world Hin)).
Defined.



Lemma trajectory_length_witness :
  ∃ w' newcalls preds,
    scenario_example 0 good_example.1 empty_world = (w', Returned tt) ∧
    calls w' = newcalls ∧ length newcalls = 3%nat ∧
    predicted_rollout_of w' (rollout_filename scenario_constants 0)
    = Some (VPositions preds) ∧
    length preds = 3%nat.
Proof.
  destruct (scenario_example 0 good_example.1 empty_world)
    as [w' [[]|e]] eqn:E; [|vm_compute in E; discriminate].
  destruct (trajectory_length 0 INPUT_SEQUENCE_LENGTH scenario_constants
    "meta"%string scenario_inference scenario_mask false 0 good_example.1
    (column scenario_context) empty_world w' eq_refl E)
    as (newcalls & preds & _ & Hc & Lc & Hp & Lp & _).
  exists w', newcalls, preds.
  split; [reflexivity|]. split; [exact Hc|]. split; [exact Lc|].
  split; [exact Hp | exact Lp].
Defined.

Lemma kinematic_mask_not_applied_witness :
  ∃ st' w',
    scenario_step good_example.1 (Some (column scenario_context))
      (loop_init empty_world) 0
      (loop_start INPUT_SEQUENCE_LENGTH good_example.1 empty_world)
    = (w', Returned st') ∧
    kinematic_mask st' = Some [true; false].
Proof.
  destruct (scenario_step good_example.1 (Some (column scenario_context))
              (loop_init empty_world) 0
              (loop_start INPUT_SEQUENCE_LENGTH good_example.1 empty_world))
    as [w' [st'|e]] eqn:E; [|vm_compute in E; discriminate].
  exists st', w'. split; [reflexivity|].
  exact (proj1 (kinematic_mask_not_applied 0 INPUT_SEQUENCE_LENGTH
    scenario_inference scenario_mask false good_example.1
    (Some (column scenario_context)) (loop_init empty_world) 0
    (loop_start INPUT_SEQUENCE_LENGTH good_example.1 empty_world) st' w' E)).
Defined.

Lemma one_record_per_example_witness :
  rollout_filename scenario_constants 1 = "out/rollout_test_1.json" ∧
  ∃ record,
    files (scenario_run ([good_example; good_example] ++ [failing_example])).1
      !! "out/rollout_test_1.json" = Some record ∧
    dom record = {[ "initial_positions"; "predicted_rollout";
                    "particle_types"; "global_context"; "metadata" ]}.
Proof.
  destruct (scenario_run [good_example; good_example])
    as [w1 [st1|e]] eqn:E; [|vm_compute in E; discriminate].
  destruct (one_record_per_example 0 INPUT_SEQUENCE_LENGTH scenario_constants
    "meta"%string scenario_inference scenario_load scenario_mask false
    [good_example; good_example] [failing_example] empty_world st1 w1 E)
    as (Hname & Hrec & _).
  split; [exact (Hname 1%nat)|].
  destruct (Hrec 1%nat good_example eq_refl) as (record & Hl & Hdom & _).
  exists record. split; [exact Hl | exact Hdom].
Defined.

Lemma initial_positions_unchanged_witness :
  ∃ w',
    scenario_example 0 good_example.1 empty_world = (w', Returned tt) ∧
    heap w' !! 0%nat = Some [[0; 1; 2; 3; 4]; [10; 11; 12; 13; 14]].
Proof.
  destruct (scenario_example 0 good_example.1 empty_world)
    as [w' [[]|e]] eqn:E; [|vm_compute in E; discriminate].
  exists w'. split; [reflexivity|].
  exact (proj1 (proj2 (initial_positions_unchanged 0 INPUT_SEQUENCE_LENGTH
    scenario_constants "meta"%string scenario_inference scenario_mask false
    0 good_example.1 empty_world w' E))).
Defined.

Lemma rollout_deterministic_witness :
  same_inputs INPUT_SEQUENCE_LENGTH good_example.1
    (scenario_features [50; 60; 70] [0; 2] (Some (column scenario_context))) ∧
  (scenario_example 0 good_example.1 empty_world).2
  = (scenario_example 7
       (scenario_features [50; 60; 70] [0; 2] (Some (column scenario_context)))
       (scenario_run [good_example]).1).2.
Proof.
  assert (Hsame : same_inputs INPUT_SEQUENCE_LENGTH good_example.1
    (scenario_features [50; 60; 70] [0; 2] (Some (column scenario_context)))).
  { repeat split. }
  split; [exact Hsame|].
  exact (proj1 (rollout_deterministic 0 INPUT_SEQUENCE_LENGTH
    scenario_constants "meta"%string scenario_inference scenario_mask false
    0 7 _ _ empty_world (scenario_run [good_example]).1 Hsame)).
Defined.

Lemma failure_ends_the_run_witness :
  let w1 := (scenario_run [good_example]).1 in
  let st1 := {| loaded := true; model_of := true; example_index_of := 1 |} in
  let w2 := (Inference_body 0 INPUT_SEQUENCE_LENGTH scenario_constants
               "meta"%string scenario_inference scenario_load scenario_mask
               st1 failing_example w1).1 in
  scenario_run ([good_example] ++ failing_example :: [good_example])
  = (w2, Raised (SimulatorError 1)) ∧
  files w2 = files w1.
Proof.
  intros w1 st1 w2.
  apply (failure_ends_the_run 0 INPUT_SEQUENCE_LENGTH scenario_constants
    "meta"%string scenario_inference scenario_load scenario_mask false
    [good_example] failing_example [good_example] empty_world st1 w1 w2
    (SimulatorError 1)).
  - vm_compute. reflexivity.
  - vm_compute. reflexivity.
Defined.

(** C4 on the code.  An example without a context makes the run raise
    [AttributeError] before the simulator is called, whether it comes
    first or after the checkpoint has been loaded: no call with a null
    context is ever made. *)
Theorem contextless_example_raises :
  scenario_run [contextless_example] = (empty_world, Raised AttributeError) ∧
  (scenario_run [good_example; contextless_example]).2
  = Raised AttributeError ∧
  calls (scenario_run [good_example; contextless_example]).1
  = calls (scenario_run [good_example]).1.
Proof. repeat split; vm_compute; reflexivity. Qed.

(** C5 as stated fails.  The simulator raises during the second example
    of three: the first record is the one the first example wrote, but the
    third example is never rolled out and has no record. *)
Lemma later_example_not_run :
  let run := scenario_run [good_example; failing_example; other_example] in
  run.2 = Raised (SimulatorError 1) ∧
  files run.1 !! rollout_filename scenario_constants 0
  = files (scenario_run [good_example]).1
      !! rollout_filename scenario_constants 0 ∧
  rollout_ran run.1 failing_example.1 = true ∧
  rollout_ran run.1 other_example.1 = false ∧
  files run.1 !! rollout_filename scenario_constants 2 = None.
Proof. repeat split; vm_compute; reflexivity. Qed.


(** * Further concrete runs

    Examples the loop rejects, and simulators whose output it rejects: one
    that predicts for the first particle only, one that predicts nothing
    for any particle. *)

Definition short_example : @Features Z Z * unit :=
  (scenario_features [5; 6; 7] [0; 2] (Some (column [1; 2; 3])), tt).

Definition wide_example : @Features Z Z * unit :=
  (scenario_features [5; 6; 7] [0; 2]
     (Some {| ncols := 2;
              rows := [[1; 1]; [2; 2]; [3; 3]; [4; 4]; [5; 5]; [6; 6]] |}),
   tt).

Definition lossy_inference (model : bool) (args : @InferenceArgs Z Z)
  : Outcome (list (list Z)) :=
  Returned (map (λ r, [default 0 (last r) + 1])
              (take 1 (arg_position_sequence args))).

Definition silent_inference (model : bool) (args : @InferenceArgs Z Z)
  : Outcome (list (list Z)) :=
  Returned (map (λ _, []) (arg_position_sequence args)).

(** A world in which the output directory exists already. *)
Definition prepared_world : @World Z Z string :=
  {| heap := []; dirs := {["out"; "other"]}; files := ∅; calls := [] |}.

(** An output path two levels down. *)
Definition nested_constants : Constants :=
  {| eval_split := "test"; output_path := "runs/sintering/out" |}.

Definition nested_run (dataset : list (@Features Z Z * unit))
  : @World Z Z string * Outcome (@InferenceState bool) :=
  Inference 0 INPUT_SEQUENCE_LENGTH nested_constants "meta"%string
    scenario_inference scenario_load scenario_mask false dataset empty_world.

(** A transfer that keeps the values, and raises on a device the machine
    does not have. *)
Definition scenario_to (device : string) (t : string * Z)
  : Outcome (string * Z) :=
  if bool_decide (device = "cuda:7") then Raised RuntimeError
  else Returned (device, t.2).

Lemma short_context_raises_witness :
  ∃ w', scenario_example 0 short_example.1 empty_world
        = (w', Raised RuntimeError) ∧
        calls w' = [] ∧ files w' = ∅ ∧ dirs w' = ∅.
Proof.
  apply (short_context_raises (Targets := unit) 0 INPUT_SEQUENCE_LENGTH
    scenario_constants "meta"%string scenario_inference scenario_load
    scenario_mask false 0 short_example.1 (column [1; 2; 3]) empty_world).
  - reflexivity.
  - unfold INPUT_SEQUENCE_LENGTH. simpl. lia.
Defined.

Lemma wide_context_raises_witness :
  ∃ w', scenario_example 0 wide_example.1 empty_world
        = (w', Raised RuntimeError) ∧
        calls w' = [] ∧ files w' = ∅ ∧ dirs w' = ∅.
Proof.
  eapply (wide_context_raises (Targets := unit) 0 INPUT_SEQUENCE_LENGTH
    scenario_constants "meta"%string scenario_inference scenario_load
    scenario_mask false 0 wide_example.1 _ empty_world).
  - reflexivity.
  - simpl. lia.
  - unfold INPUT_SEQUENCE_LENGTH. simpl. lia.
Defined.

Lemma particle_count_mismatch_raises_witness :
  (rollout_step (Metadata := string) 0 INPUT_SEQUENCE_LENGTH lossy_inference
     scenario_mask false good_example.1 (Some (column scenario_context))
     (loop_init empty_world) 0
     (loop_start INPUT_SEQUENCE_LENGTH good_example.1 empty_world)).2
  = Raised RuntimeError.
Proof.
  erewrite (particle_count_mismatch_raises 0 INPUT_SEQUENCE_LENGTH
    lossy_inference scenario_mask false good_example.1
    (Some (column scenario_context)) (loop_init empty_world) 0
    (loop_start INPUT_SEQUENCE_LENGTH good_example.1 empty_world)
    (row [100; 101; 102; 103; 104; 0; 0]) [[5]] [5]).
  - reflexivity.
  - vm_compute. reflexivity.
  - vm_compute. reflexivity.
  - reflexivity.
  - vm_compute. lia.
Defined.

Lemma empty_prediction_raises_witness :
  (rollout_step (Metadata := string) 0 INPUT_SEQUENCE_LENGTH silent_inference
     scenario_mask false good_example.1 (Some (column scenario_context))
     (loop_init empty_world) 0
     (loop_start INPUT_SEQUENCE_LENGTH good_example.1 empty_world)).2
  = Raised IndexError.
Proof.
  erewrite (empty_prediction_raises 0 INPUT_SEQUENCE_LENGTH
    silent_inference scenario_mask false good_example.1
    (Some (column scenario_context)) (loop_init empty_world) 0
    (loop_start INPUT_SEQUENCE_LENGTH good_example.1 empty_world)
    (row [100; 101; 102; 103; 104; 0; 0]) [[]; []]).
  - reflexivity.
  - vm_compute. reflexivity.
  - vm_compute. reflexivity.
  - apply list_elem_of_here.
Defined.

Lemma first_iteration_failure_witness :
  (scenario_run [failing_example; good_example]).2
  = Raised (SimulatorError 1) ∧
  length (calls (scenario_run [failing_example; good_example]).1) = 1%nat ∧
  files (scenario_run [failing_example; good_example]).1 = ∅.
Proof.
  unfold scenario_run.
  rewrite (first_iteration_failure 0 INPUT_SEQUENCE_LENGTH scenario_constants
    "meta"%string scenario_inference scenario_load scenario_mask false
    failing_example [good_example] empty_world (column scenario_context)
    (SimulatorError 1)).
  - repeat split.
  - reflexivity.
  - vm_compute. reflexivity.
Defined.

Lemma warmup_context_is_final_context_witness :
  context_step 0 INPUT_SEQUENCE_LENGTH (Some (column scenario_context))
    2 empty_world
  = (empty_world,
     Returned (Some (row [100; 101; 102; 103; 104; 105; 106]))).
Proof.
  apply (warmup_context_is_final_context 0 INPUT_SEQUENCE_LENGTH
    scenario_inference scenario_load false good_example.1 scenario_context
    empty_world).
  - reflexivity.
  - unfold INPUT_SEQUENCE_LENGTH. simpl. lia.
Defined.


Lemma simulator_call_count_witness :
  ∃ st' w',
    scenario_run [good_example; good_example] = (w', Returned st') ∧
    length (calls w') = 7%nat.
Proof.
  destruct (scenario_run [good_example; good_example])
    as [w' [st'|e]] eqn:E; [|vm_compute in E; discriminate].
  exists st', w'. split; [reflexivity|].
  exact (simulator_call_count 0 INPUT_SEQUENCE_LENGTH scenario_constants
    "meta"%string scenario_inference scenario_load scenario_mask false
    [good_example; good_example] empty_world st' w' E).
Defined.

Lemma stored_record_shape_witness :
  ∃ w' preds,
    scenario_example 0 good_example.1 empty_world = (w', Returned tt) ∧
    predicted_rollout_of w' (rollout_filename scenario_constants 0)
    = Some (VPositions preds) ∧
    Forall (λ p, length p = 2%nat) preds.
Proof.
  destruct (scenario_example 0 good_example.1 empty_world)
    as [w' [[]|e]] eqn:E; [|vm_compute in E; discriminate].
  destruct (stored_record_shape 0 INPUT_SEQUENCE_LENGTH scenario_constants
    "meta"%string scenario_inference scenario_mask false 0 good_example.1
    empty_world w' E) as (gc & preds & record & _ & Hf & _ & Hp & Hall).
  exists w', preds. split; [reflexivity|]. split; [|exact Hall].
  unfold predicted_rollout_of. rewrite Hf. exact Hp.
Defined.

Lemma simulator_input_shape_witness :
  ∃ w' newcalls,
    scenario_example 0 good_example.1 empty_world = (w', Returned tt) ∧
    calls w' = newcalls ∧
    Forall (window_shape INPUT_SEQUENCE_LENGTH 2) newcalls.
Proof.
  destruct (scenario_example 0 good_example.1 empty_world)
    as [w' [[]|e]] eqn:E; [|vm_compute in E; discriminate].
  destruct (simulator_input_shape 0 INPUT_SEQUENCE_LENGTH scenario_constants
    "meta"%string scenario_inference scenario_mask false 0 good_example.1
    empty_world w') as (newcalls & Hc & Hall).
  - unfold INPUT_SEQUENCE_LENGTH. lia.
  - repeat constructor.
  - exact E.
  - exists w', newcalls. split; [reflexivity|]. split; [exact Hc | exact Hall].
Defined.

Lemma only_output_directory_created_witness :
  dirs (nested_run [good_example]).1
  = {[ "runs/sintering/out"; "runs"; "runs/sintering" ]} ∧
  (∀ d, d ∈ dirs (nested_run [good_example]).1 →
        d ∈ (∅ : gset string) ∨ d = "runs/sintering/out"
        ∨ ∃ rest, "runs/sintering/out" = d +:+ "/" +:+ rest) ∧
  dirs (Inference 0 INPUT_SEQUENCE_LENGTH scenario_constants "meta"%string
          scenario_inference scenario_load scenario_mask false [good_example]
          prepared_world).1
  = dirs prepared_world.
Proof.
  split; [vm_compute; reflexivity|]. split.
  - exact (proj1 (proj2 (only_output_directory_created 0
      INPUT_SEQUENCE_LENGTH nested_constants "meta"%string
      scenario_inference scenario_load scenario_mask false [good_example]
      empty_world))).
  - apply (proj2 (proj2 (only_output_directory_created 0
      INPUT_SEQUENCE_LENGTH scenario_constants "meta"%string
      scenario_inference scenario_load scenario_mask false [good_example]
      prepared_world))).
    simpl. apply elem_of_union_l. by apply elem_of_singleton.
Defined.

(** With an empty output path the first example raises at [os.makedirs],
    after its rollout, and no directory is created. *)
Lemma empty_output_path_raises :
  let run :=
    Inference 0 INPUT_SEQUENCE_LENGTH
      {| eval_split := "test"; output_path := "" |} "meta"%string
      scenario_inference scenario_load scenario_mask false [good_example]
      empty_world in
  run.2 = Raised FileNotFoundError ∧ dirs run.1 = ∅ ∧ files run.1 = ∅ ∧
  length (calls run.1) = 4%nat.
Proof. repeat split; vm_compute; reflexivity. Qed.

Lemma Stats_to_in_place_witness :
  let store : nat → @Stats (string * Z) :=
    λ _, {| mean := ("cpu"%string, 1); std := ("cpu"%string, 2) |} in
  (Stats_to scenario_to 0 "cuda:0"%string store).2 = Returned 0%nat ∧
  (Stats_to scenario_to 0 "cuda:0"%string store).1 0%nat
  = {| mean := ("cuda:0"%string, 1); std := ("cuda:0"%string, 2) |} ∧
  (Stats_to scenario_to 0 "cuda:7"%string store).2 = Raised RuntimeError.
Proof.
  intros store.
  pose proof (proj2 (Stats_to_in_place scenario_to 0 "cuda:0"%string store))
    as [H1 H2].
  pose proof (proj2 (Stats_to_in_place scenario_to 0 "cuda:7"%string store))
    as [H3 _].
  split; [exact H1|]. split; [exact H2 | exact H3].
Defined.
